(** * Units of the data stream model: gates, dispatch, links and pickling

    A shallow embedding of [src/units.py]: the classes [Pickleable],
    [Unit] and [Repeater].  Python objects are identified by a natural
    number (their identity); the dictionaries [links_from] and [links_to]
    are finite maps from unit identities to flags. *)

From Stdlib Require Import Ascii String.
From stdpp Require Import base gmap sets list strings.

Open Scope Z_scope.
Open Scope nat_scope.

(** ** Python values *)

(** The values that the modelled attributes can hold.  [Env] is the state
    outside of the unit graph (buffers, counters, whatever the bodies of
    the units and the routing predicates work on).  A zero-argument
    callable stored in an attribute is a function that reads this state. *)
Inductive pyval (Env : Type) : Type :=
  | PyNone
  | PyBool (b : bool)
  | PyInt (z : Z)
  | PyStr (s : string)
  | PyLock (id : nat)
  | PyObj (id : nat)
  | PyFunc (f : Env → pyval Env).

Arguments PyNone {Env}.
Arguments PyBool {Env} b.
Arguments PyInt {Env} z.
Arguments PyStr {Env} s.
Arguments PyLock {Env} id.
Arguments PyObj {Env} id.
Arguments PyFunc {Env} f.

(** Exceptions that the modelled code can raise or let through. *)
Inductive exn : Type :=
  | KeyError
  | IndexError
  | UserError (msg : string).

Section values.
Context {Env : Type}.

  (** Python's [bool(v)]. *)
Definition truthy (v : pyval Env) : bool :=
    match v with
    | PyNone => false
    | PyBool b => b
    | PyInt z => negb (z =? 0)%Z
    | PyStr s => negb (bool_decide (s = EmptyString))
    | PyLock _ => true
    | PyObj _ => true
    | PyFunc _ => true
    end.

  (** Python's [callable(v)]. *)
Definition callable (v : pyval Env) : bool :=
    match v with
    | PyFunc _ => true
    | _ => false
    end.

  (** [Unit.callvle]: [var() if callable(var) else var]. *)
Definition callvle (var : pyval Env) (e : Env) : pyval Env :=
    match var with
    | PyFunc f => f e
    | _ => var
    end.

  (** The condition written out twice in the source, for the skip pair in
      [check_gate_and_run] and for the block pair in [run_dependent]:
      [(callvle(a) and not callvle(b)) or (not callvle(a) and callvle(b))]. *)
Definition gate_condition (a b : pyval Env) (e : Env) : bool :=
    (truthy (callvle a e) && negb (truthy (callvle b e)))
    || (negb (truthy (callvle a e)) && truthy (callvle b e)).
End values.

(** ** Pickling *)

(** What pickling and unpickling an object touches: the attribute
    dictionary [self.__dict__], the locks made so far by
    [threading.Lock()] (a lock's identity is its position, [true] says
    that it is held), and the class attribute [Unit.timers]. *)
Record heap (Env : Type) : Type := mk_heap {
  __dict__ : gmap string (pyval Env);
  locks : list bool;
  timers : gmap nat Z
}.

Arguments mk_heap {Env}.
Arguments __dict__ {Env} h.
Arguments locks {Env} h.
Arguments timers {Env} h.

Module Pickleable.
Section pickle.
Context {Env : Type}.

(** [init_unpickled] of the base class [logger.Logger], which is not part
    of these sources: [None] when the class has no such method, else what
    the method does to [self.__dict__]. *)
Variable Logger_init_unpickled :
  option (gmap string (pyval Env) → gmap string (pyval Env)).

(** [Pickleable.init_unpickled(self)]. *)
Definition init_unpickled (h : heap Env) : heap Env :=
  match Logger_init_unpickled with
  | Some f => mk_heap (f (__dict__ h)) (locks h) (timers h)
  | None => h
  end.

(** [k[len(k) - 1]]: on the empty string the index is [-1], which is out
    of range. *)
Definition last_char (k : string) : option Ascii.ascii :=
  match String.length k with
  | 0 => None
  | S n => String.get n k
  end.

(** The loop of [__getstate__] over [self.__dict__.items()]. *)
Fixpoint getstate_items (items : list (string * pyval Env))
    (state : gmap string (pyval Env))
  : gmap string (pyval Env) * option exn :=
  match items with
  | [] => (state, None)
  | (k, v) :: rest =>
      match last_char k with
      | None => (state, Some IndexError)
      | Some c =>
          if negb (Ascii.eqb c "_") && negb (callable v)
          then getstate_items rest (<[k := v]> state)
          else getstate_items rest (<[k := PyNone]> state)
      end
  end.

(** [Pickleable.__getstate__(self)]. *)
Definition __getstate__ (h : heap Env)
  : gmap string (pyval Env) * option exn :=
  getstate_items (map_to_list (__dict__ h)) ∅.

(** [Pickleable.__setstate__(self, state)]; [self_init_unpickled] is the
    method that [self.init_unpickled] resolves to on the class of [self].
    [dict.update] lets the entries of [state] win. *)
Definition __setstate__ (self_init_unpickled : heap Env → heap Env)
    (state : gmap string (pyval Env)) (h : heap Env) : heap Env :=
  self_init_unpickled (mk_heap (state ∪ __dict__ h) (locks h) (timers h)).

End pickle.
End Pickleable.

(** ** Units *)

Inductive unit_class : Type := ClsUnit | ClsRepeater.

(** What a call of a unit's [initialize()] or [run()] leaves behind: the
    outer state, and the exception when the body raised one. *)
Definition body (Env : Type) : Type := Env → Env * option exn.

(** The attributes of a unit that the gate and dispatch code reads and
    writes.  [gate_block], [gate_skip], [gate_block_not] and
    [gate_skip_not] stand for slot [0] of the one-element lists of the
    same name.  [run_lock_] is [true] while the lock is held.  [gate_lock_]
    is not a field: it brackets [open_gate] and the unlink operations,
    each of which is one atomic step here.  [initialize] and [run] are the
    bodies that the unit's class provides. *)
Record unit_obj (Env : Type) : Type := mk_unit {
  cls : unit_class;
  links_from : gmap nat bool;
  links_to : gmap nat bool;
  is_initialized : bool;
  run_lock_ : bool;
  gate_block : pyval Env;
  gate_skip : pyval Env;
  gate_block_not : pyval Env;
  gate_skip_not : pyval Env;
  initialize : body Env;
  run : body Env
}.

Arguments mk_unit {Env}.
Arguments cls {Env} u.
Arguments links_from {Env} u.
Arguments links_to {Env} u.
Arguments is_initialized {Env} u.
Arguments run_lock_ {Env} u.
Arguments gate_block {Env} u.
Arguments gate_skip {Env} u.
Arguments gate_block_not {Env} u.
Arguments gate_skip_not {Env} u.
Arguments initialize {Env} u.
Arguments run {Env} u.

Section unit_fields.
Context {Env : Type}.

Definition set_links_from (d : gmap nat bool) (u : unit_obj Env) : unit_obj Env :=
    mk_unit (cls u) d (links_to u) (is_initialized u) (run_lock_ u)
            (gate_block u) (gate_skip u) (gate_block_not u) (gate_skip_not u)
            (initialize u) (run u).

Definition set_links_to (d : gmap nat bool) (u : unit_obj Env) : unit_obj Env :=
    mk_unit (cls u) (links_from u) d (is_initialized u) (run_lock_ u)
            (gate_block u) (gate_skip u) (gate_block_not u) (gate_skip_not u)
            (initialize u) (run u).

Definition set_is_initialized (b : bool) (u : unit_obj Env) : unit_obj Env :=
    mk_unit (cls u) (links_from u) (links_to u) b (run_lock_ u)
            (gate_block u) (gate_skip u) (gate_block_not u) (gate_skip_not u)
            (initialize u) (run u).

Definition set_run_lock_ (b : bool) (u : unit_obj Env) : unit_obj Env :=
    mk_unit (cls u) (links_from u) (links_to u) (is_initialized u) b
            (gate_block u) (gate_skip u) (gate_block_not u) (gate_skip_not u)
            (initialize u) (run u).

  (** The body [pass] of [Unit.initialize] and [Unit.run]. *)
Definition pass : body Env := λ e, (e, None).

  (** A unit right after [Unit.__init__] (which runs [init_unpickled]
      through the constructor of its base class). *)
Definition new_unit (c : unit_class) : unit_obj Env :=
    mk_unit c ∅ ∅ false false (PyInt 0) (PyInt 0) (PyInt 0) (PyInt 0) pass pass.

#[export] Instance unit_obj_inhabited : Inhabited (unit_obj Env) :=
    populate (new_unit ClsUnit).

  (** The object store: unit identity to unit.  An identity that the map
      does not hold denotes a unit that nothing has touched since it was
      constructed, so that [st !!! u] reads it as [new_unit ClsUnit]. *)
Definition upd (u : nat) (f : unit_obj Env → unit_obj Env)
      (st : gmap nat (unit_obj Env)) : gmap nat (unit_obj Env) :=
    <[u := f (st !!! u)]> st.

  (** Dictionary helpers: [d.keys()], [all(d.values())], [d[k] = v].
      A Python dict yields its keys in the order of their insertion,
      which a map from keys to values does not record: [dict_keys]
      lists the keys, each once, in the order of the map.  A statement
      about a loop over the keys therefore speaks of the keys up to
      their order, or takes the order of iteration as an argument. *)
Definition dict_keys (d : gmap nat bool) : list nat := (map_to_list d).*1.
Definition dict_values (d : gmap nat bool) : list bool := (map_to_list d).*2.
Definition all (l : list bool) : bool := forallb id l.

Definition set_flag_from (k : nat) (v : bool) (u : unit_obj Env) : unit_obj Env :=
    set_links_from (<[k := v]> (links_from u)) u.
Definition set_flag_to (k : nat) (v : bool) (u : unit_obj Env) : unit_obj Env :=
    set_links_to (<[k := v]> (links_to u)) u.
End unit_fields.

(** ** The worker pool, the trace, the world *)

(** What an observer of the bodies sees: each call of a unit's
    [initialize()], the warning logged after it, each call of its
    [run()], and each call of [run_dependent()]. *)
Inductive event : Type :=
  | EvInitialize (u : nat)
  | EvWarning (u : nat)
  | EvRun (u : nat)
  | EvRunDependent (u : nat).

#[export] Instance event_eq_dec : EqDecision event.
Proof. solve_decision. Defined.

(** The world: the units, the outer state, the class attribute
    [Unit.pool_] ([None] until [thread_pool()] builds the pool, then the
    tasks [(dst, src)] handed to [callInThread], oldest first; running
    them belongs to the pool), and the trace of calls so far. *)
Record world (Env : Type) : Type := mk_world {
  units : gmap nat (unit_obj Env);
  env : Env;
  pool_ : option (list (nat * nat));
  trace : list event
}.

Arguments mk_world {Env}.
Arguments units {Env} w.
Arguments env {Env} w.
Arguments pool_ {Env} w.
Arguments trace {Env} w.

Section world_fields.
Context {Env : Type}.

Definition set_units (st : gmap nat (unit_obj Env)) (w : world Env) : world Env :=
  mk_world st (env w) (pool_ w) (trace w).

Definition set_env (e : Env) (w : world Env) : world Env :=
  mk_world (units w) e (pool_ w) (trace w).

Definition set_pool_ (p : option (list (nat * nat))) (w : world Env) : world Env :=
  mk_world (units w) (env w) p (trace w).

Definition log (ev : event) (w : world Env) : world Env :=
  mk_world (units w) (env w) (pool_ w) (trace w ++ [ev]).

(** The tasks that the pool was handed ([[]] while there is no pool). *)
Definition tasks (w : world Env) : list (nat * nat) := default [] (pool_ w).

End world_fields.

Module Repeater.
Section gate.
Context {Env : Type}.

(** [Repeater.open_gate(self, src)]: [return True]. *)
Definition open_gate (self src : nat) (st : gmap nat (unit_obj Env))
  : bool * gmap nat (unit_obj Env) :=
  (true, st).

End gate.
End Repeater.

Module Unit.
Section unpickle.
Context {Env : Type}.
Variable Logger_init_unpickled :
  option (gmap string (pyval Env) → gmap string (pyval Env)).

(** [self.name = threading.Lock()]: a new lock, not held. *)
Definition new_lock (name : string) (h : heap Env) : heap Env :=
  mk_heap (<[name := PyLock (length (locks h))]> (__dict__ h))
          (locks h ++ [false]) (timers h).

(** [Unit.init_unpickled(self)]. *)
Definition init_unpickled (self : nat) (h : heap Env) : heap Env :=
  let h1 := Pickleable.init_unpickled Logger_init_unpickled h in
  let h2 := new_lock "gate_lock_" h1 in
  let h3 := new_lock "run_lock_" h2 in
  let h4 :=
    mk_heap (<["is_initialized" := PyBool false]> (__dict__ h3))
            (locks h3) (timers h3) in
  mk_heap (__dict__ h4) (locks h4) (<[self := 0%Z]> (timers h4)).

(** [__setstate__] on a unit: inherited from [Pickleable], with
    [self.init_unpickled] resolved to [Unit.init_unpickled]. *)
Definition __setstate__ (self : nat) (state : gmap string (pyval Env))
    (h : heap Env) : heap Env :=
  Pickleable.__setstate__ (init_unpickled self) state h.

End unpickle.

Section methods.
Context {Env : Type}.

(** [Unit.open_gate(self, src)]: the answer and the store it leaves. *)
Definition open_gate (self src : nat) (st : gmap nat (unit_obj Env))
  : bool * gmap nat (unit_obj Env) :=
  if (size (links_from (st !!! self)) =? 0) then (true, st)
  else
    let st1 :=
      match links_from (st !!! self) !! src with
      | Some _ => upd self (set_flag_from src true) st
      | None => st
      end in
    if negb (all (dict_values (links_from (st1 !!! self)))) then (false, st1)
    else
      (true,
       foldl (λ s k, upd self (set_flag_from k false) s) st1
             (dict_keys (links_from (st1 !!! self)))).

(** The call [x.open_gate(src)], resolved on the class of [x]. *)
Definition call_open_gate (x src : nat) (st : gmap nat (unit_obj Env))
  : bool * gmap nat (unit_obj Env) :=
  match cls (st !!! x) with
  | ClsUnit => open_gate x src st
  | ClsRepeater => Repeater.open_gate x src st
  end.

(** [Unit.thread_pool(self)]: builds the pool on first use. *)
Definition thread_pool (w : world Env) : world Env :=
  match pool_ w with
  | None => set_pool_ (Some []) w
  | Some _ => w
  end.

(** [self.thread_pool().callInThread(dst.check_gate_and_run, self)]. *)
Definition callInThread (dst self : nat) (w : world Env) : world Env :=
  let w1 := thread_pool w in
  set_pool_ (Some (tasks w1 ++ [(dst, self)])) w1.

(** [Unit.run_dependent(self)].  The successors are taken in the order
    of [dict_keys]: the tasks handed to the pool are those of the source,
    up to the order among the tasks of one call. *)
Definition run_dependent (self : nat) (w : world Env) : world Env :=
  foldl
    (λ w1 dst,
       if gate_condition (gate_block (units w1 !!! dst))
                         (gate_block_not (units w1 !!! dst)) (env w1)
       then w1
       else callInThread dst self w1)
    (log (EvRunDependent self) w)
    (dict_keys (links_to (units w !!! self))).

(** The [try] block of [check_gate_and_run], entered with [run_lock_]
    held: the first trigger initializes, then the body runs.  The wrapper
    that [measure_time] puts around [run] adds the elapsed wall-clock
    time to [Unit.timers] when the body returns; that registry is outside
    this model. *)
Definition initialize_and_run (self : nat) (w : world Env) : world Env * option exn :=
  let '(w1, r1) :=
    if negb (is_initialized (units w !!! self)) then
      let '(e1, r) := initialize (units w !!! self) (env w) in
      let wi := set_env e1 (log (EvInitialize self) w) in
      match r with
      | Some x => (wi, Some x)
      | None =>
          (set_units (upd self (set_is_initialized true) (units wi))
                     (log (EvWarning self) wi), None)
      end
    else (w, None) in
  match r1 with
  | Some x => (w1, Some x)
  | None =>
      let '(e2, r) := run (units w1 !!! self) (env w1) in
      (set_env e2 (log (EvRun self) w1), r)
  end.

(** [Unit.check_gate_and_run(self, src)]: the world it leaves, and the
    exception that leaves it, if any. *)
Definition check_gate_and_run (self src : nat) (w : world Env)
  : world Env * option exn :=
  let '(opened, st1) := call_open_gate self src (units w) in
  let w1 := set_units st1 w in
  if negb opened then (w1, None)
  else if gate_condition (gate_skip (units w1 !!! self))
                         (gate_skip_not (units w1 !!! self)) (env w1)
  then (run_dependent self w1, None)
  else if run_lock_ (units w1 !!! self) then (w1, None)
  else
    let w2 := set_units (upd self (set_run_lock_ true) (units w1)) w1 in
    let '(w3, r) := initialize_and_run self w2 in
    let w4 := set_units (upd self (set_run_lock_ false) (units w3)) w3 in
    match r with
    | Some x => (w4, Some x)
    | None => (run_dependent self w4, None)
    end.

(** One pass of the [for dst in self.links_to.keys()] loop of
    [initialize_dependent]; [recurse] is the call
    [dst.initialize_dependent()]. *)
Fixpoint initialize_successors
    (recurse : nat → world Env → option (world Env * option exn))
    (self : nat) (dsts : list nat) (w : world Env)
  : option (world Env * option exn) :=
  match dsts with
  | [] => Some (w, None)
  | dst :: rest =>
      if is_initialized (units w !!! dst) then
        initialize_successors recurse self rest w
      else
        let '(opened, st1) := call_open_gate dst self (units w) in
        let w1 := set_units st1 w in
        if negb opened then initialize_successors recurse self rest w1
        else
          let '(e1, r) := initialize (units w1 !!! dst) (env w1) in
          let w2 := set_env e1 (log (EvInitialize dst) w1) in
          match r with
          | Some x => Some (w2, Some x)
          | None =>
              let w3 :=
                set_units (upd dst (set_is_initialized true) (units w2)) w2 in
              match recurse dst w3 with
              | None => None
              | Some (w4, Some x) => Some (w4, Some x)
              | Some (w4, None) => initialize_successors recurse self rest w4
              end
          end
  end.

(** [Unit.initialize_dependent(self)].  The recursion of the source is
    bounded here by [fuel], the depth of nested calls allowed; [None]
    says that the bound was hit. *)
Fixpoint initialize_dependent (fuel : nat) (self : nat) (w : world Env)
  : option (world Env * option exn) :=
  match fuel with
  | 0 => None
  | S fuel' =>
      initialize_successors (initialize_dependent fuel') self
        (dict_keys (links_to (units w !!! self))) w
  end.

(** The same traversal with the order of iteration as an argument:
    [order u] is the list that [u.links_to.keys()] yields.  The
    traversal changes no [links_to], so a unit yields the same list at
    every visit.  [initialize_dependent] is the case where every
    [links_to] yields its keys in the order of [dict_keys]. *)
Fixpoint initialize_dependent_in (order : nat → list nat)
    (fuel : nat) (self : nat) (w : world Env)
  : option (world Env * option exn) :=
  match fuel with
  | 0 => None
  | S fuel' =>
      initialize_successors (initialize_dependent_in order fuel') self
        (order self) w
  end.

(** [Unit.link_from(self, src)]. *)
Definition link_from (self src : nat) (st : gmap nat (unit_obj Env))
  : gmap nat (unit_obj Env) :=
  upd src (set_flag_to self false) (upd self (set_flag_from src false) st).

(** [del owner.links_to[key]] and [del owner.links_from[key]]: a missing
    key raises [KeyError]. *)
Definition del_links_to (owner key : nat) (st : gmap nat (unit_obj Env))
  : gmap nat (unit_obj Env) * option exn :=
  match links_to (st !!! owner) !! key with
  | Some _ =>
      (upd owner (λ u, set_links_to (delete key (links_to u)) u) st, None)
  | None => (st, Some KeyError)
  end.

Definition del_links_from (owner key : nat) (st : gmap nat (unit_obj Env))
  : gmap nat (unit_obj Env) * option exn :=
  match links_from (st !!! owner) !! key with
  | Some _ =>
      (upd owner (λ u, set_links_from (delete key (links_from u)) u) st, None)
  | None => (st, Some KeyError)
  end.

(** A [for] loop whose body may raise: it stops at the first exception. *)
Fixpoint for_each (f : nat → gmap nat (unit_obj Env) → gmap nat (unit_obj Env) * option exn)
    (ks : list nat) (st : gmap nat (unit_obj Env))
  : gmap nat (unit_obj Env) * option exn :=
  match ks with
  | [] => (st, None)
  | k :: rest =>
      match f k st with
      | (st1, Some x) => (st1, Some x)
      | (st1, None) => for_each f rest st1
      end
  end.

(** [Unit.unlink_from_all(self)]. *)
Definition unlink_from_all (self : nat) (st : gmap nat (unit_obj Env))
  : gmap nat (unit_obj Env) * option exn :=
  match for_each (λ src, del_links_to src self)
                 (dict_keys (links_from (st !!! self))) st with
  | (st1, Some x) => (st1, Some x)
  | (st1, None) =>
      match for_each (λ dst, del_links_from dst self)
                     (dict_keys (links_to (st1 !!! self))) st1 with
      | (st2, Some x) => (st2, Some x)
      | (st2, None) =>
          (upd self (set_links_to ∅) (upd self (set_links_from ∅) st2), None)
      end
  end.

(** [Unit.unlink_from(self, src)]. *)
Definition unlink_from (self src : nat) (st : gmap nat (unit_obj Env))
  : gmap nat (unit_obj Env) :=
  let st1 :=
    match links_to (st !!! src) !! self with
    | Some _ => fst (del_links_to src self st)
    | None => st
    end in
  match links_from (st1 !!! self) !! src with
  | Some _ => fst (del_links_from self src st1)
  | None => st1
  end.

End methods.
End Unit.

(** ** Harness for rounds of notifications *)

Section rounds.
Context {Env : Type}.

(** [self.links_from] after the statement
    [if src in self.links_from: self.links_from[src] = True]. *)
Definition mark (src : nat) (d : gmap nat bool) : gmap nat bool :=
  match d !! src with
  | Some _ => <[src := true]> d
  | None => d
  end.

(** The predecessors [srcs] notify [self] one after the other: the
    answers of [Unit.open_gate], in order, and the store at the end. *)
Fixpoint notify (self : nat) (srcs : list nat) (st : gmap nat (unit_obj Env))
  : list bool * gmap nat (unit_obj Env) :=
  match srcs with
  | [] => ([], st)
  | src :: rest =>
      let '(b, st1) := Unit.open_gate self src st in
      let '(bs, st2) := notify self rest st1 in
      (b :: bs, st2)
  end.

End rounds.

(** ** Reading the pickled state *)

(** The name [k] carries the mark of an attribute that is not pickled:
    its last character is an underscore. *)
Definition transient (k : string) : bool :=
  match Pickleable.last_char k with
  | Some c => Ascii.eqb c "_"
  | None => false
  end.

(** ** Graphs built by linking *)

Section graphs.
Context {Env : Type}.

(** [B] is a key of [A.links_to] exactly when [A] is a key of
    [B.links_from]. *)
Definition bidirectional (st : gmap nat (unit_obj Env)) : Prop :=
  ∀ a b, is_Some (links_to (st !!! a) !! b) ↔ is_Some (links_from (st !!! b) !! a).

(** The stores that the link operations make of freshly constructed
    units (no unit has a link yet), gate checks in between allowed. *)
Inductive built : gmap nat (unit_obj Env) → Prop :=
  | built_fresh st :
      (∀ x, links_from (st !!! x) = ∅ ∧ links_to (st !!! x) = ∅) → built st
  | built_link_from self src st :
      built st → built (Unit.link_from self src st)
  | built_unlink_from self src st :
      built st → built (Unit.unlink_from self src st)
  | built_unlink_from_all self st :
      built st → built (fst (Unit.unlink_from_all self st))
  | built_open_gate x src st :
      built st → built (snd (Unit.call_open_gate x src st)).

End graphs.

(** ** What a traversal may change *)

Section traversal.
Context {Env : Type}.

(** From [w] to [w'] nothing happened but calls of [initialize()] and gate
    checks: the pool is as it was, every new event is a call of
    [initialize()], no [links_to] changed, and the units that were
    initialized in [w] are exactly as they were. *)
Definition only_initializes (w w' : world Env) : Prop :=
  pool_ w' = pool_ w
  ∧ (∃ evs, trace w' = trace w ++ evs
            ∧ Forall (λ ev, ∃ d, ev = EvInitialize d) evs)
  ∧ (∀ x, links_to (units w' !!! x) = links_to (units w !!! x))
  ∧ (∀ x, is_initialized (units w !!! x) = true →
          units w' !!! x = units w !!! x).


(** The units of [K] that are not initialized yet. *)
Definition pending (K : gset nat) (w : world Env) : nat :=
  size (filter (λ k, is_initialized (units w !!! k) = false) K).

End traversal.

(** ** Example graphs *)

Module Examples.

(** The join [1 → 3], [2 → 3]: unit [3] has the predecessors [1] and [2].
    The outer state is a counter. *)
Definition join : gmap nat (unit_obj nat) :=
  Unit.link_from 3 2 (Unit.link_from 3 1 ∅).

(** Unit [3] is a [Repeater] with the predecessor [1]. *)
Definition repeater : gmap nat (unit_obj nat) :=
  Unit.link_from 3 1 (<[3 := new_unit ClsRepeater]> ∅).

(** [2 → 3], where [gate_skip] of unit [2] holds [True]. *)
Definition skipper : world nat :=
  mk_world
    (Unit.link_from 3 2
       (<[2 := mk_unit ClsUnit ∅ ∅ false false (PyInt 0) (PyBool true)
                       (PyInt 0) (PyInt 0) pass pass]> ∅))
    0 None [].

(** [2 → 3], where a run of unit [2] is in flight. *)
Definition busy : world nat :=
  mk_world
    (Unit.link_from 3 2
       (<[2 := mk_unit ClsUnit ∅ ∅ true true (PyInt 0) (PyInt 0)
                       (PyInt 0) (PyInt 0) pass pass]> ∅))
    0 None [].

(** [2 → 3], where [initialize()] of unit [2] counts and raises. *)
Definition failing : world nat :=
  mk_world
    (Unit.link_from 3 2
       (<[2 := mk_unit ClsUnit ∅ ∅ false false (PyInt 0) (PyInt 0)
                       (PyInt 0) (PyInt 0)
                       (λ n, (S n, Some (UserError "no buffer"))) pass]> ∅))
    0 None [].




(** The attributes of an object with a lock, a name and a callable, and
    the one lock made so far. *)
Definition pickled : heap nat :=
  mk_heap {[ "run_lock_" := PyLock 0; "name" := PyStr "a";
             "run" := PyFunc (λ _, PyNone) ]}
          [false] ∅.

End Examples.

(** ** Names of units *)

Module UnitAttrs.
Section names.
Context {Env : Type}.

(** [Unit.name(self)], where [cls_name] is [self.__class__.__name__];
    [None] stands for the [AttributeError] of an object that has no
    attribute [individual_name]. *)
Definition name (cls_name : string) (h : heap Env) : option (pyval Env) :=
  match __dict__ h !! "individual_name" with
  | Some v => Some (if truthy v then v else PyStr cls_name)
  | None => None
  end.

(** [Unit.set_name(self, value)]; [None] stands for the [ValueError]
    raised when [value] is not a string. *)
Definition set_name (value : pyval Env) (h : heap Env) : option (heap Env) :=
  match value with
  | PyStr _ =>
      Some (mk_heap (<["individual_name" := value]> (__dict__ h))
                    (locks h) (timers h))
  | _ => None
  end.

End names.
End UnitAttrs.

(** ** The inclusion plan of [OpenCLUnit.build_program] *)

Module OpenCLUnit.

(** The loop of [build_program] that records the includes.  [tokens]
    gives, for each token that [cprep.token()] returns before the one
    that ends the loop, the value of [cprep.source] at that time and the
    token's [lineno].  [None] stands for the [IndexError] of
    [files_list[-1]] on an empty list. *)
Fixpoint record_loop (tokens : list (string * Z)) (files_list : list (string * Z))
  : option (list (string * Z)) :=
  match tokens with
  | [] => Some files_list
  | (source, lineno) :: rest =>
      match last files_list with
      | None => None
      | Some (current, _) =>
          if bool_decide (current ≠ source) then
            record_loop rest
              (files_list ++
                 [(source, if bool_decide (3 ≤ lineno)%Z then (lineno - 1)%Z
                           else 1%Z)])
          else record_loop rest files_list
      end
  end.

(** [files_list] after the loop, which starts from [[('opencl', 0)]]. *)
Definition record_includes (tokens : list (string * Z))
  : option (list (string * Z)) :=
  record_loop tokens [("opencl", 0%Z)].

(** [files_list[1:-1]]. *)
Definition inner (files_list : list (string * Z)) : list (string * Z) :=
  drop 1 (take (length files_list - 1) files_list).

(** One pass of the loop that bakes the inclusion plan, on
    [flatten_plan] and [file_bottoms]; [not bottom] holds of a missing
    entry and of zero. *)
Definition plan_step (acc : list (string * Z) * gmap string Z)
    (file : string * Z) : list (string * Z) * gmap string Z :=
  if bool_decide (file.1 = "opencl") then acc
  else
    (match acc.2 !! file.1 with
     | None => (file.1, (-1)%Z)
     | Some bottom =>
         if bool_decide (bottom = 0%Z) then (file.1, (-1)%Z)
         else (file.1, (bottom - file.2)%Z)
     end :: acc.1,
     <[file.1 := (file.2 - 1)%Z]> acc.2).

(** [flatten_plan] after the loop over [reversed(files_list[1:-1])]. *)
Definition bake_plan (files_list : list (string * Z)) : list (string * Z) :=
  (foldl plan_step ([], ∅) (reverse (inner files_list))).1.

(** What the two loops amount to, written by recursion on the input. *)

(** The sources of the tokens with each run of equal sources reduced to
    its first token, [prev] being the source before. *)
Fixpoint runs (prev : string) (tokens : list (string * Z)) : list (string * Z) :=
  match tokens with
  | [] => []
  | (source, lineno) :: rest =>
      if bool_decide (prev ≠ source) then
        (source, if bool_decide (3 ≤ lineno)%Z then (lineno - 1)%Z else 1%Z)
        :: runs source rest
      else runs prev rest
  end.

(** The line recorded with the next entry of [file] in [files]. *)
Fixpoint next_line (file : string) (files : list (string * Z)) : option Z :=
  match files with
  | [] => None
  | (f, lineno) :: rest =>
      if bool_decide (f = file) then Some lineno else next_line file rest
  end.

(** The plan entry by entry: each entry of [files] other than [opencl]
    is planned whole ([-1]) when the file does not come again or comes
    again at line one, and else up to the line before its next entry. *)
Fixpoint plan_of (files : list (string * Z)) : list (string * Z) :=
  match files with
  | [] => []
  | (f, lineno) :: rest =>
      if bool_decide (f = "opencl") then plan_of rest
      else
        (f, match next_line f rest with
            | None => (-1)%Z
            | Some l' =>
                if bool_decide ((l' - 1)%Z = 0%Z) then (-1)%Z
                else (l' - 1 - lineno)%Z
            end) :: plan_of rest
  end.

End OpenCLUnit.

(** ** The options of the command line ([generate_frontend.generate_opts]) *)

Module GenerateFrontend.

(** What [generate_opts] can raise. *)
Inductive failure : Type := RaisedIndexError | RaisedNameError.

(** The class of an argparse action as [generate_opts] tests it:
    [_StoreTrueAction], [_StoreAction], or any other class. *)
Inductive action_kind : Type := StoreTrueAction | StoreAction | OtherAction.

(** The attributes of an argparse action that [generate_opts] reads;
    [Value] is the type of the defaults. *)
Record action (Value : Type) : Type := mk_action {
  option_strings : list string;
  dest : string;
  choices : option (list string);
  default : Value;
  kind : action_kind
}.

Arguments mk_action {Value}.
Arguments option_strings {Value} _.
Arguments dest {Value} _.
Arguments choices {Value} _.
Arguments default {Value} _.
Arguments kind {Value} _.

(** The local variables of [generate_opts].  [option_strings_var] is the
    variable [option_strings], which is bound by the first action that
    has option strings and keeps its value from one pass of the loop to
    the next. *)
Record locals (Value : Type) : Type := mk_locals {
  string_arguments : list string;
  boolean_arguments : list string;
  positional_opts : list string;
  alias : gmap string string;
  choices_var : gmap string (list string);
  defaults : gmap string Value;
  option_strings_var : option (list string)
}.

Arguments mk_locals {Value}.
Arguments string_arguments {Value} _.
Arguments boolean_arguments {Value} _.
Arguments positional_opts {Value} _.
Arguments alias {Value} _.
Arguments choices_var {Value} _.
Arguments defaults {Value} _.
Arguments option_strings_var {Value} _.

(** [while option[0] == "-": option = option[1:]]; [option[0]] raises
    [IndexError] on the empty string. *)
Fixpoint strip_dashes (option : string) : failure + string :=
  match option with
  | EmptyString => inl RaisedIndexError
  | String c rest =>
      if Ascii.eqb c "-" then strip_dashes rest else inr option
  end.

(** The loop [for i in range(0, len(option_strings), 2)], which strips
    the dashes of [option_strings[i]] and [option_strings[i + 1]] in
    place and sets [alias[option_strings[i]] = option_strings[i + 1]];
    it returns the list as it leaves it. *)
Fixpoint alias_loop (option_strings : list string) (alias : gmap string string)
  : failure + (list string * gmap string string) :=
  match option_strings with
  | [] => inr ([], alias)
  | a :: rest =>
      match strip_dashes a with
      | inl e => inl e
      | inr a' =>
          match rest with
          | [] => inl RaisedIndexError
          | b :: rest' =>
              match strip_dashes b with
              | inl e => inl e
              | inr b' =>
                  match alias_loop rest' (<[a' := b']> alias) with
                  | inl e => inl e
                  | inr (l, al) => inr (a' :: b' :: l, al)
                  end
              end
          end
      end
  end.

(** [str(option_strings[:2][-1])] on a list that is not empty. *)
Definition shown_option (first : string) (others : list string) : string :=
  match others with
  | [] => first
  | second :: _ => second
  end.

Section opts.
Context {Value : Type}.

(** One pass of the loop [for arg in arguments]. *)
Definition opts_step (s : locals Value) (arg : action Value)
  : failure + locals Value :=
  let '(bound, option, positional) :=
    match option_strings arg with
    | [] => (option_strings_var s, dest arg, positional_opts s ++ [dest arg])
    | first :: others =>
        (Some (first :: others), shown_option first others, positional_opts s)
    end in
  let choices' :=
    match choices arg with
    | Some c => <[option := c]> (choices_var s)
    | None => choices_var s
    end in
  let defaults' := <[option := default arg]> (defaults s) in
  match strip_dashes option with
  | inl e => inl e
  | inr option' =>
      let booleans :=
        match kind arg with
        | StoreTrueAction => boolean_arguments s ++ [option']
        | _ => boolean_arguments s
        end in
      let strings :=
        match kind arg with
        | StoreAction => string_arguments s ++ [option']
        | _ => string_arguments s
        end in
      match bound with
      | None => inl RaisedNameError
      | Some os =>
          if 1 <? length os then
            match alias_loop os (alias s) with
            | inl e => inl e
            | inr (os', alias') =>
                inr (mk_locals strings booleans positional alias' choices'
                               defaults' (Some os'))
            end
          else
            inr (mk_locals strings booleans positional (alias s) choices'
                           defaults' (Some os))
      end
  end.

(** The loop over [arguments]. *)
Fixpoint opts_loop (arguments : list (action Value)) (s : locals Value)
  : failure + locals Value :=
  match arguments with
  | [] => inr s
  | arg :: rest =>
      match opts_step s arg with
      | inl e => inl e
      | inr s' => opts_loop rest s'
      end
  end.

(** [generate_opts(arguments)]: the locals at the [return], of which the
    function returns the lists and dictionaries ([opts] holds [string],
    [alias], [boolean] and the constant [stopEarly]). *)
Definition generate_opts (arguments : list (action Value))
  : failure + locals Value :=
  opts_loop arguments (mk_locals [] [] [] ∅ ∅ ∅ None).

(** The name an action goes by in [choices] and [defaults]. *)
Definition option_of (arg : action Value) : string :=
  match option_strings arg with
  | [] => dest arg
  | first :: others => shown_option first others
  end.

End opts.

(** [n] dashes. *)
Fixpoint dashes (n : nat) : string :=
  match n with
  | 0 => EmptyString
  | S n' => String "-" (dashes n')
  end.

(** [option] without its leading dashes. *)
Fixpoint stripped (option : string) : string :=
  match option with
  | EmptyString => EmptyString
  | String c rest => if Ascii.eqb c "-" then stripped rest else option
  end.

#[export] Instance action_kind_eq_dec : EqDecision action_kind.
Proof. solve_decision. Defined.

Section plain.
Context {Value : Type}.

(** An action as argparse usually has them: at most two option strings,
    none of them made of dashes only, and, without option strings, a
    [dest] that is not made of dashes only. *)
Definition plain (arg : action Value) : Prop :=
  length (option_strings arg) ≤ 2
  ∧ Forall (λ o, stripped o ≠ EmptyString) (option_strings arg)
  ∧ (option_strings arg = [] → stripped (dest arg) ≠ EmptyString).

(** The entry that an action with two option strings adds to [alias]. *)
Definition alias_of (m : gmap string string) (arg : action Value)
  : gmap string string :=
  match option_strings arg with
  | [x; y] => <[stripped x := stripped y]> m
  | _ => m
  end.

(** The local [option_strings] is bound and the loop over its pairs has
    nothing left to change. *)
Definition settled (s : locals Value) : Prop :=
  ∃ os, option_strings_var s = Some os
        ∧ (length os ≤ 1 ∨ alias_loop os (alias s) = inr (os, alias s)).

End plain.

End GenerateFrontend.

(** ** Which units a traversal initialized *)

Section initialized.
Context {Env : Type}.


End initialized.

(** ** More example worlds *)

Module MoreExamples.

(** The join of [Examples.join] as a world. *)
Definition join_world : world nat := mk_world Examples.join 0 None [].

(** [2 → 3], where [initialize()] of unit [2] adds ten to the counter and
    [run()] doubles it, and unit [3] is blocked as long as the counter is
    below twenty. *)
Definition worker : world nat :=
  mk_world
    (Unit.link_from 3 2
       (<[3 := mk_unit ClsUnit ∅ ∅ false false
                       (PyFunc (λ n, PyBool (n <? 20))) (PyInt 0)
                       (PyInt 0) (PyInt 0) pass pass]>
        (<[2 := mk_unit ClsUnit ∅ ∅ false false (PyInt 0) (PyInt 0)
                        (PyInt 0) (PyInt 0)
                        (λ n, (n + 10, None)) (λ n, (2 * n, None))]> ∅)))
    0 None [].

(** A store where unit [3] has the predecessor [1] in [links_from], and
    unit [1] has no successor. *)
Definition one_sided : gmap nat (unit_obj nat) :=
  <[3 := set_links_from {[1 := false]} (new_unit ClsUnit)]> ∅.

(** The attributes of a unit named [a], initialized, with its [run]. *)
Definition named : heap nat :=
  mk_heap {[ "individual_name" := PyStr "a"; "is_initialized" := PyBool true;
             "run" := PyFunc (λ _, PyNone) ]}
          [false; true] ∅.

(** The actions of [-v, --verbose] (a flag), [--device] (a string with
    choices) and the positional [workflow]. *)
Definition actions : list (GenerateFrontend.action Z) :=
  [GenerateFrontend.mk_action ["-v"; "--verbose"] "verbose" None 0%Z
     GenerateFrontend.StoreTrueAction;
   GenerateFrontend.mk_action ["--device"] "device" (Some ["cpu"; "gpu"]) 1%Z
     GenerateFrontend.StoreAction;
   GenerateFrontend.mk_action [] "workflow" None 2%Z
     GenerateFrontend.StoreAction].

End MoreExamples.

(** * Facts *)

Section store_facts.
Context {Env : Type}.
Implicit Types (st : gmap nat (unit_obj Env)) (d : gmap nat bool).
Implicit Types (u : unit_obj Env).

Lemma upd_lookup_eq x f st : upd x f st !!! x = f (st !!! x).
Proof. unfold upd. by rewrite lookup_total_insert_eq. Qed.

Lemma upd_lookup_ne x y f st : x ≠ y → upd x f st !!! y = st !!! y.
Proof. intros. unfold upd. by rewrite lookup_total_insert_ne. Qed.

Lemma set_links_from_eta u : set_links_from (links_from u) u = u.
Proof. by destruct u. Qed.

Lemma set_links_from_twice d1 d2 u :
  set_links_from d1 (set_links_from d2 u) = set_links_from d1 u.
Proof. done. Qed.

Lemma elem_of_dict_keys d k : k ∈ dict_keys d ↔ is_Some (d !! k).
Proof.
  unfold dict_keys. rewrite list_elem_of_fmap. split.
  - intros [[k' v] [-> Hin]]. apply elem_of_map_to_list in Hin. by exists v.
  - intros [v Hv]. exists (k, v). split; [done|]. by apply elem_of_map_to_list.
Qed.

Lemma NoDup_dict_keys d : NoDup (dict_keys d).
Proof. apply NoDup_fst_map_to_list. Qed.

Lemma length_dict_keys d : length (dict_keys d) = size d.
Proof. unfold dict_keys. by rewrite length_fmap, length_map_to_list. Qed.

Lemma all_dict_values d :
  all (dict_values d) = true ↔ ∀ k v, d !! k = Some v → v = true.
Proof.
  unfold all, dict_values. rewrite forallb_forall. split.
  - intros H k v Hk. apply (H v). apply list_elem_of_In.
    apply list_elem_of_fmap. exists (k, v). split; [done|].
    by apply elem_of_map_to_list.
  - intros H v Hv. apply list_elem_of_In, list_elem_of_fmap in Hv.
    destruct Hv as [[k v'] [-> Hin]]. apply elem_of_map_to_list in Hin.
    by apply (H k).
Qed.

Lemma not_all_dict_values d k :
  d !! k = Some false → all (dict_values d) = false.
Proof.
  intros Hk. destruct (all (dict_values d)) eqn:Hall; [|done].
  rewrite all_dict_values in Hall. by apply Hall in Hk.
Qed.

Lemma foldl_reset_lookup (ks : list nat) d j :
  foldl (λ m k, <[k := false]> m) d ks !! j
  = if decide (j ∈ ks) then Some false else d !! j.
Proof.
  revert d. induction ks as [|k ks IH]; intros d; simpl.
  - destruct (decide (j ∈ [])) as [Hin|_]; [by apply elem_of_nil in Hin|done].
  - rewrite IH. destruct (decide (j ∈ ks)) as [Hin|Hnin].
    + rewrite decide_True; [done|set_solver].
    + destruct (decide (j = k)) as [->|Hne].
      * rewrite lookup_insert_eq. rewrite decide_True; [done|set_solver].
      * rewrite lookup_insert_ne by done. rewrite decide_False; [done|set_solver].
Qed.

Lemma foldl_reset_keys d :
  foldl (λ m k, <[k := false]> m) d (dict_keys d) = (λ _, false) <$> d.
Proof.
  apply map_eq. intros j. rewrite foldl_reset_lookup, lookup_fmap.
  case_decide as Hin.
  - apply elem_of_dict_keys in Hin as [v ->]. done.
  - destruct (d !! j) eqn:Hj; [|done].
    exfalso. apply Hin, elem_of_dict_keys. by rewrite Hj.
Qed.

Lemma reset_loop_self self ks st :
  foldl (λ s k, upd self (set_flag_from k false) s) st ks !!! self
  = set_links_from (foldl (λ m k, <[k := false]> m) (links_from (st !!! self)) ks)
                   (st !!! self).
Proof.
  revert st. induction ks as [|k ks IH]; intros st; simpl.
  - by rewrite set_links_from_eta.
  - rewrite IH, upd_lookup_eq. done.
Qed.

Lemma reset_loop_other self ks st x :
  x ≠ self →
  foldl (λ s k, upd self (set_flag_from k false) s) st ks !!! x = st !!! x.
Proof.
  intros Hne. revert st. induction ks as [|k ks IH]; intros st; simpl; [done|].
  rewrite IH. by apply upd_lookup_ne.
Qed.

Lemma mark_lookup src d k :
  mark src d !! k
  = if decide (k = src) then (λ _, true) <$> d !! k else d !! k.
Proof.
  unfold mark. destruct (d !! src) eqn:Hsrc.
  - case_decide as Hk.
    + subst. by rewrite lookup_insert_eq, Hsrc.
    + by rewrite lookup_insert_ne.
  - case_decide as Hk; [|done]. subst. by rewrite Hsrc.
Qed.

Lemma dom_mark src d : dom (mark src d) = dom d.
Proof.
  apply set_eq. intros k. rewrite !elem_of_dom, mark_lookup.
  case_decide; [|done]. by rewrite fmap_is_Some.
Qed.

Lemma mark_nonempty src d : d ≠ ∅ → mark src d ≠ ∅.
Proof.
  intros Hd Hm. apply Hd. apply dom_empty_iff_L.
  rewrite <-(dom_mark src), Hm. apply dom_empty_L.
Qed.

End store_facts.

Section gate_facts.
Context {Env : Type}.
Implicit Types (st : gmap nat (unit_obj Env)) (d : gmap nat bool).

Lemma open_gate_empty self src st :
  links_from (st !!! self) = ∅ → Unit.open_gate self src st = (true, st).
Proof. intros H. unfold Unit.open_gate. by rewrite H, map_size_empty. Qed.

Lemma open_gate_nonempty self src st :
  links_from (st !!! self) ≠ ∅ →
  ∃ st',
    Unit.open_gate self src st
    = (all (dict_values (mark src (links_from (st !!! self)))), st')
    ∧ st' !!! self
      = set_links_from
          (if all (dict_values (mark src (links_from (st !!! self))))
           then (λ _, false) <$> mark src (links_from (st !!! self))
           else mark src (links_from (st !!! self)))
          (st !!! self)
    ∧ ∀ x, x ≠ self → st' !!! x = st !!! x.
Proof.
  intros Hne. unfold Unit.open_gate.
  apply map_size_non_empty_iff, Nat.eqb_neq in Hne. rewrite Hne.
  set (st1 := match links_from (st !!! self) !! src with
              | Some _ => upd self (set_flag_from src true) st
              | None => st
              end).
  assert (Hself : st1 !!! self
                  = set_links_from (mark src (links_from (st !!! self))) (st !!! self)).
  { unfold st1, mark. destruct (links_from (st !!! self) !! src).
    - by rewrite upd_lookup_eq.
    - by rewrite set_links_from_eta. }
  assert (Hother : ∀ x, x ≠ self → st1 !!! x = st !!! x).
  { intros x Hx. unfold st1. destruct (links_from (st !!! self) !! src); [|done].
    by apply upd_lookup_ne. }
  rewrite Hself. simpl.
  destruct (all (dict_values (mark src (links_from (st !!! self))))) eqn:Hall; simpl.
  - eexists. split; [done|]. split.
    + rewrite reset_loop_self, Hself. simpl. by rewrite foldl_reset_keys.
    + intros x Hx. rewrite reset_loop_other by done. by apply Hother.
  - eexists. split; [done|]. split; [done|]. apply Hother.
Qed.

Lemma notify_closed self srcs st k0 :
  links_from (st !!! self) !! k0 = Some false →
  k0 ∉ srcs →
  Forall (λ b, b = false) (fst (notify self srcs st))
  ∧ links_from (snd (notify self srcs st) !!! self) !! k0 = Some false.
Proof.
  revert st. induction srcs as [|src rest IH]; intros st Hk0 Hnin; simpl.
  - split; [constructor|done].
  - apply not_elem_of_cons in Hnin as [Hne Hrest].
    assert (Hd : links_from (st !!! self) ≠ ∅).
    { intros He. by rewrite He, lookup_empty in Hk0. }
    destruct (open_gate_nonempty self src st Hd) as (st' & -> & Hself & _).
    assert (Hm : mark src (links_from (st !!! self)) !! k0 = Some false).
    { rewrite mark_lookup. by rewrite decide_False. }
    rewrite (not_all_dict_values _ _ Hm) in Hself |- *.
    assert (Hk0' : links_from (st' !!! self) !! k0 = Some false)
      by (by rewrite Hself).
    destruct (IH st' Hk0' Hrest) as [Hall Hfin].
    destruct (notify self rest st') as [bs st2]. simpl in *.
    split; [by constructor|done].
Qed.

Lemma notify_round self srcs st :
  srcs ≠ [] →
  NoDup srcs →
  (∀ k, k ∈ srcs → is_Some (links_from (st !!! self) !! k)) →
  (∀ k v, links_from (st !!! self) !! k = Some v → v = false ↔ k ∈ srcs) →
  fst (notify self srcs st) = replicate (length srcs - 1) false ++ [true]
  ∧ links_from (snd (notify self srcs st) !!! self)
    = (λ _, false) <$> links_from (st !!! self).
Proof.
  revert st. induction srcs as [|src rest IH]; intros st Hnil Hnd Hdom Hflags;
    [done|].
  apply NoDup_cons in Hnd as [Hsrc Hnd]. simpl.
  assert (Hd : links_from (st !!! self) ≠ ∅).
  { intros He. destruct (Hdom src) as [v Hv]; [set_solver|].
    by rewrite He, lookup_empty in Hv. }
  destruct (open_gate_nonempty self src st Hd) as (st' & -> & Hself & _).
  set (d := links_from (st !!! self)) in *.
  destruct rest as [|k1 rest].
  - (* the last predecessor of the round *)
    assert (Hall : all (dict_values (mark src d)) = true).
    { apply all_dict_values. intros k v. rewrite mark_lookup.
      case_decide as Hk.
      - destruct (d !! k); simpl; congruence.
      - intros Hv. destruct v; [done|]. exfalso.
        pose proof (proj1 (Hflags k false Hv) eq_refl) as Hin. set_solver. }
    rewrite Hall in Hself |- *. simpl. split; [done|].
    rewrite Hself. simpl. apply map_eq. intros k.
    rewrite !lookup_fmap, mark_lookup. case_decide; [|done].
    by destruct (d !! k).
  - (* some predecessor has yet to arrive *)
    assert (Hk1 : mark src d !! k1 = Some false).
    { rewrite mark_lookup. rewrite decide_False by set_solver.
      destruct (Hdom k1) as [v Hv]; [set_solver|]. fold d in Hv.
      rewrite Hv. f_equal. apply (Hflags k1 v Hv). set_solver. }
    rewrite (not_all_dict_values _ _ Hk1) in Hself |- *.
    assert (Hlf : links_from (st' !!! self) = mark src d) by (by rewrite Hself).
    destruct (IH st') as [Hres Hfin]; [done|done|..].
    + intros k Hk. rewrite Hlf, mark_lookup.
      rewrite decide_False by set_solver. apply Hdom. set_solver.
    + intros k v. rewrite Hlf, mark_lookup. case_decide as Hk.
      * subst k. intros Hv. split; [|intros; exfalso; set_solver].
        intros ->. by destruct (d !! src).
      * intros Hv. rewrite (Hflags k v Hv). set_solver.
    + destruct (notify self (k1 :: rest) st') as [bs st2]. simpl in *.
      rewrite Hres. split; [by rewrite Nat.sub_0_r|].
      rewrite Hfin, Hlf. apply map_eq. intros k.
      rewrite !lookup_fmap, mark_lookup. case_decide; [|done].
      by destruct (d !! k).
Qed.

End gate_facts.

Section and_join.
Context {Env : Type}.
Implicit Types (st : gmap nat (unit_obj Env)) (d : gmap nat bool).

Lemma missing_predecessor d (srcs : list nat) :
  length srcs < size d → ∃ k, is_Some (d !! k) ∧ k ∉ srcs.
Proof.
  intros Hlen.
  destruct (decide (Forall (λ k, k ∈ srcs) (dict_keys d))) as [Hall|Hex].
  - exfalso. rewrite Forall_forall in Hall.
    pose proof (NoDup_submseteq _ _ (NoDup_dict_keys d) Hall) as Hsub.
    apply submseteq_length in Hsub. rewrite length_dict_keys in Hsub. lia.
  - apply not_Forall_Exists in Hex; [|apply _].
    apply Exists_exists in Hex as (k & Hk & Hnot).
    exists k. split; [by apply elem_of_dict_keys|done].
Qed.

(** C1. [Unit.open_gate] is the AND-join barrier.  With no predecessor
    the gate is open and nothing changes.  Otherwise the flag of [src] is
    set when [src] is a predecessor; the answer is [false] exactly when
    some flag is still [false], and then the flags stay as marked; else
    the answer is [true] and every flag is reset to [false]; nothing else
    in the store changes.  From flags that are all [false], the
    predecessors notifying once each, in any order, get [false] every time
    but the last, which gets [true], and leave the flags all [false]
    again; fewer notifications than predecessors get only [false]. *)
Theorem open_gate_and_join (self : nat) st :
  (links_from (st !!! self) = ∅ →
   ∀ src, Unit.open_gate self src st = (true, st))
  ∧ (links_from (st !!! self) ≠ ∅ →
     ∀ src, ∃ b st',
       Unit.open_gate self src st = (b, st')
       ∧ (b = false ↔ ∃ k, mark src (links_from (st !!! self)) !! k = Some false)
       ∧ st' !!! self
         = set_links_from
             (if b then (λ _, false) <$> mark src (links_from (st !!! self))
              else mark src (links_from (st !!! self)))
             (st !!! self)
       ∧ ∀ x, x ≠ self → st' !!! x = st !!! x)
  ∧ ((∀ k v, links_from (st !!! self) !! k = Some v → v = false) →
     (links_from (st !!! self) ≠ ∅ →
      ∀ srcs, srcs ≡ₚ dict_keys (links_from (st !!! self)) →
        fst (notify self srcs st)
        = replicate (size (links_from (st !!! self)) - 1) false ++ [true]
        ∧ links_from (snd (notify self srcs st) !!! self)
          = links_from (st !!! self))
     ∧ (∀ srcs, length srcs < size (links_from (st !!! self)) →
          Forall (λ b, b = false) (fst (notify self srcs st)))).
Proof.
  split; [|split].
  - intros Hd src. by apply open_gate_empty.
  - intros Hd src.
    destruct (open_gate_nonempty self src st Hd) as (st' & Heq & Hself & Hother).
    eexists _, st'. split; [exact Heq|]. split; [|by split].
    split.
    + intros Hall.
      destruct (decide (map_Forall (λ _ v, v = true)
                          (mark src (links_from (st !!! self))))) as [Hf|Hf].
      * rewrite map_Forall_lookup in Hf.
        apply all_dict_values in Hf. congruence.
      * apply map_not_Forall in Hf; [|apply _].
        destruct Hf as (k & v & Hk & Hv). exists k. by destruct v.
    + intros [k Hk]. by apply (not_all_dict_values _ k).
  - intros Hfalse. split.
    + intros Hd srcs Hperm.
      assert (Hlen : length srcs = size (links_from (st !!! self))).
      { by rewrite Hperm, length_dict_keys. }
      destruct (notify_round self srcs st) as [Hres Hfin].
      * intros ->. simpl in Hlen. symmetry in Hlen.
        by apply map_size_empty_iff in Hlen.
      * rewrite Hperm. apply NoDup_dict_keys.
      * intros k Hk. rewrite Hperm in Hk. by apply elem_of_dict_keys.
      * intros k v Hk. split.
        -- intros _. rewrite Hperm. apply elem_of_dict_keys. by rewrite Hk.
        -- intros _. by apply (Hfalse k).
      * rewrite Hres, Hfin, Hlen. split; [done|].
        apply map_eq. intros k. rewrite lookup_fmap.
        destruct (links_from (st !!! self) !! k) as [v|] eqn:Hk; [|done].
        simpl. f_equal. symmetry. by apply (Hfalse k).
    + intros srcs Hlen.
      destruct (missing_predecessor _ _ Hlen) as (k0 & [v Hk0] & Hnin).
      assert (v = false) as -> by (by apply (Hfalse k0)).
      by destruct (notify_closed self srcs st k0 Hk0 Hnin).
Qed.

End and_join.

(** On the join [1 → 3], [2 → 3]: the round [2; 1] opens the gate of [3]
    at its second notification, and one notification alone does not. *)
Lemma open_gate_and_join_witness :
  fst (notify 3 [2; 1] Examples.join) = [false; true]
  ∧ Forall (λ b, b = false) (fst (notify 3 [1] Examples.join)).
Proof.
  destruct (open_gate_and_join 3 Examples.join) as (_ & _ & Hround).
  destruct Hround as [Hfull Hfew].
  - apply map_Forall_lookup. by compute_done.
  - split.
    + apply (Hfull ltac:(by compute_done) [2; 1]). by compute_done.
    + apply Hfew. vm_compute. lia.
Defined.

Section dispatch_facts.
Context {Env : Type}.
Implicit Types (st : gmap nat (unit_obj Env)) (w : world Env).

(** A gate check writes nothing but arrival flags. *)
Lemma open_gate_frame self src st y :
  snd (Unit.open_gate self src st) !!! y
  = set_links_from (links_from (snd (Unit.open_gate self src st) !!! y)) (st !!! y).
Proof.
  destruct (decide (links_from (st !!! self) = ∅)) as [He|Hne].
  - rewrite (open_gate_empty _ _ _ He). simpl. by rewrite set_links_from_eta.
  - destruct (open_gate_nonempty self src st Hne) as (st' & -> & Hself & Hother).
    simpl. destruct (decide (y = self)) as [->|Hy].
    + by rewrite Hself.
    + rewrite (Hother y Hy). by rewrite set_links_from_eta.
Qed.

Lemma call_open_gate_frame x src st y :
  snd (Unit.call_open_gate x src st) !!! y
  = set_links_from (links_from (snd (Unit.call_open_gate x src st) !!! y))
                   (st !!! y).
Proof.
  unfold Unit.call_open_gate. destruct (cls (st !!! x)).
  - apply open_gate_frame.
  - simpl. by rewrite set_links_from_eta.
Qed.

Lemma call_open_gate_frame' x src st b st1 y :
  Unit.call_open_gate x src st = (b, st1) →
  st1 !!! y = set_links_from (links_from (st1 !!! y)) (st !!! y).
Proof.
  intros H. pose proof (call_open_gate_frame x src st y) as Hf.
  by rewrite H in Hf.
Qed.

Lemma gate_condition_xorb (a b : pyval Env) (e : Env) :
  gate_condition a b e
  = xorb (truthy (callvle a e)) (truthy (callvle b e)).
Proof.
  unfold gate_condition.
  by destruct (truthy (callvle a e)), (truthy (callvle b e)).
Qed.

(** The loop of [run_dependent], started from any world [w0] that has the
    units and the outer state of [w]. *)
Lemma run_dependent_loop self (dsts : list nat) w w0 :
  units w0 = units w → env w0 = env w →
  let submitted :=
    (λ dst, (dst, self)) <$>
      filter (λ dst, gate_condition (gate_block (units w !!! dst))
                                     (gate_block_not (units w !!! dst))
                                     (env w) = false) dsts in
  let w' := foldl
    (λ w1 dst,
       if gate_condition (gate_block (units w1 !!! dst))
                         (gate_block_not (units w1 !!! dst)) (env w1)
       then w1
       else Unit.callInThread dst self w1) w0 dsts in
  units w' = units w ∧ env w' = env w ∧ trace w' = trace w0
  ∧ tasks w' = tasks w0 ++ submitted
  ∧ pool_ w' = match submitted with [] => pool_ w0 | _ => Some (tasks w') end.
Proof.
  revert w0. induction dsts as [|dst rest IH]; intros w0 Hu He; simpl.
  - by rewrite app_nil_r.
  - rewrite Hu, He.
    destruct (gate_condition (gate_block (units w !!! dst))
                (gate_block_not (units w !!! dst)) (env w)) eqn:Hc.
    + rewrite filter_cons_False by (by rewrite Hc). by apply IH.
    + rewrite filter_cons_True by done. simpl.
      destruct (IH (Unit.callInThread dst self w0)) as (H1 & H2 & H3 & H4 & H5).
      { unfold Unit.callInThread, Unit.thread_pool.
        by destruct (pool_ w0). }
      { unfold Unit.callInThread, Unit.thread_pool.
        by destruct (pool_ w0). }
      split; [done|]. split; [done|]. split.
      { rewrite H3. unfold Unit.callInThread, Unit.thread_pool.
        by destruct (pool_ w0). }
      assert (Ht : tasks (Unit.callInThread dst self w0)
                   = tasks w0 ++ [(dst, self)]).
      { unfold Unit.callInThread, Unit.thread_pool, tasks.
        destruct (pool_ w0) eqn:Hp; simpl; by rewrite ?Hp. }
      split.
      { rewrite H4, Ht. symmetry. apply (app_assoc _ [_] _). }
      rewrite H5, H4, Ht. destruct (_ <$> filter _ rest) as [|t ts]; [|done].
      rewrite app_nil_r.
      unfold Unit.callInThread, Unit.thread_pool, tasks.
      destruct (pool_ w0) eqn:Hp; simpl; by rewrite ?Hp.
Qed.

End dispatch_facts.

Section dispatch.
Context {Env : Type}.
Implicit Types (st : gmap nat (unit_obj Env)) (w : world Env).

Lemma gate_keeps_fields x src st b st1 y :
  Unit.call_open_gate x src st = (b, st1) →
  cls (st1 !!! y) = cls (st !!! y)
  ∧ links_to (st1 !!! y) = links_to (st !!! y)
  ∧ is_initialized (st1 !!! y) = is_initialized (st !!! y)
  ∧ run_lock_ (st1 !!! y) = run_lock_ (st !!! y)
  ∧ gate_block (st1 !!! y) = gate_block (st !!! y)
  ∧ gate_block_not (st1 !!! y) = gate_block_not (st !!! y)
  ∧ gate_skip (st1 !!! y) = gate_skip (st !!! y)
  ∧ gate_skip_not (st1 !!! y) = gate_skip_not (st !!! y)
  ∧ initialize (st1 !!! y) = initialize (st !!! y)
  ∧ run (st1 !!! y) = run (st !!! y).
Proof.
  intros H. rewrite (call_open_gate_frame' _ _ _ _ _ y H). by simpl.
Qed.

Lemma run_dependent_spec self w :
  units (Unit.run_dependent self w) = units w
  ∧ env (Unit.run_dependent self w) = env w
  ∧ trace (Unit.run_dependent self w) = trace w ++ [EvRunDependent self]
  ∧ tasks (Unit.run_dependent self w)
    = tasks w ++
      ((λ dst, (dst, self)) <$>
         filter (λ dst, gate_condition (gate_block (units w !!! dst))
                                        (gate_block_not (units w !!! dst))
                                        (env w) = false)
                (dict_keys (links_to (units w !!! self)))).
Proof.
  unfold Unit.run_dependent.
  destruct (run_dependent_loop self (dict_keys (links_to (units w !!! self)))
              w (log (EvRunDependent self) w) eq_refl eq_refl)
    as (H1 & H2 & H3 & H4 & _).
  by rewrite H1, H2, H3, H4.
Qed.

(** C10. A [Repeater]'s gate is open whatever its predecessors and their
    arrival flags are, and checking it changes nothing: no flag is set and
    none is reset. *)
Theorem repeater_gate_always_open (self src : nat) st :
  cls (st !!! self) = ClsRepeater →
  Unit.call_open_gate self src st = (true, st)
  ∧ Repeater.open_gate self src st = (true, st).
Proof.
  intros Hcls. unfold Unit.call_open_gate. by rewrite Hcls.
Qed.

(** C5. The routing condition of a flag and its inverting companion is
    the exclusive or of the two resolved cells, so that two true cells
    decide like two false ones; a callable cell is resolved by calling it
    on the state at the time of the decision, any other value is taken as
    it is. *)
Theorem gate_condition_is_xor (a b : pyval Env) (e : Env) :
  gate_condition a b e = xorb (truthy (callvle a e)) (truthy (callvle b e))
  ∧ (∀ a' b',
       truthy (callvle a e) = true → truthy (callvle b e) = true →
       truthy (callvle a' e) = false → truthy (callvle b' e) = false →
       gate_condition a b e = gate_condition a' b' e)
  ∧ (∀ f : Env → pyval Env, callvle (PyFunc f) e = f e)
  ∧ (callable a = false → callvle a e = a).
Proof.
  split; [apply gate_condition_xorb|]. split; [|split].
  - intros a' b' Ha Hb Ha' Hb'. rewrite !gate_condition_xorb.
    by rewrite Ha, Hb, Ha', Hb'.
  - done.
  - by destruct a.
Qed.

(** C4. [run_dependent] hands the pool one task per successor whose
    block condition (the exclusive or of its own [gate_block] and
    [gate_block_not] cells, resolved) is false, namely the call of that
    successor's [check_gate_and_run] with [self] as source, and no task
    for a successor whose condition is true; it touches neither the units
    nor the outer state. *)
Theorem run_dependent_schedules (self : nat) w :
  ∃ submitted,
    tasks (Unit.run_dependent self w) = tasks w ++ submitted
    ∧ NoDup submitted
    ∧ (∀ dst src,
         (dst, src) ∈ submitted ↔
         src = self
         ∧ is_Some (links_to (units w !!! self) !! dst)
         ∧ xorb (truthy (callvle (gate_block (units w !!! dst)) (env w)))
                (truthy (callvle (gate_block_not (units w !!! dst)) (env w)))
           = false)
    ∧ units (Unit.run_dependent self w) = units w
    ∧ env (Unit.run_dependent self w) = env w.
Proof.
  destruct (run_dependent_spec self w) as (Hu & He & _ & Ht).
  eexists. split; [exact Ht|]. split; [|split; [|done]].
  - apply NoDup_fmap_2; [by intros ?? [=]|].
    apply NoDup_filter, NoDup_dict_keys.
  - intros dst src. rewrite list_elem_of_fmap. split.
    + intros (d & [= -> ->] & Hin). apply list_elem_of_filter in Hin as [Hc Hin].
      rewrite gate_condition_xorb in Hc. apply elem_of_dict_keys in Hin. done.
    + intros (-> & Hin & Hc). exists dst. split; [done|].
      apply list_elem_of_filter. split.
      * by rewrite gate_condition_xorb.
      * by apply elem_of_dict_keys.
Qed.

(** C3. When the gate lets the trigger through and the skip condition
    (the exclusive or of the resolved [gate_skip] and [gate_skip_not]
    cells) is true, [check_gate_and_run] does what [run_dependent] does
    and nothing more: neither [initialize()] nor [run()] is called, the
    outer state and [is_initialized] stay as they are, and every successor
    that is not blocked has its task handed to the pool: one task each,
    appended to those the pool held, in whatever order [links_to] is
    iterated. *)
Theorem skip_still_notifies (self src : nat) w st1 :
  Unit.call_open_gate self src (units w) = (true, st1) →
  xorb (truthy (callvle (gate_skip (units w !!! self)) (env w)))
       (truthy (callvle (gate_skip_not (units w !!! self)) (env w))) = true →
  Unit.check_gate_and_run self src w
  = (Unit.run_dependent self (set_units st1 w), None)
  ∧ trace (fst (Unit.check_gate_and_run self src w))
    = trace w ++ [EvRunDependent self]
  ∧ env (fst (Unit.check_gate_and_run self src w)) = env w
  ∧ is_initialized (units (fst (Unit.check_gate_and_run self src w)) !!! self)
    = is_initialized (units w !!! self)
  ∧ ∃ submitted,
      tasks (fst (Unit.check_gate_and_run self src w)) = tasks w ++ submitted
      ∧ NoDup submitted
      ∧ ∀ dst src',
          (dst, src') ∈ submitted ↔
          src' = self
          ∧ is_Some (links_to (units w !!! self) !! dst)
          ∧ xorb (truthy (callvle (gate_block (units w !!! dst)) (env w)))
                 (truthy (callvle (gate_block_not (units w !!! dst)) (env w)))
            = false.
Proof.
  intros Hgate Hskip.
  assert (Hrun : Unit.check_gate_and_run self src w
                 = (Unit.run_dependent self (set_units st1 w), None)).
  { unfold Unit.check_gate_and_run. rewrite Hgate. simpl.
    destruct (gate_keeps_fields _ _ _ _ _ self Hgate)
      as (_ & _ & _ & _ & _ & _ & -> & -> & _).
    by rewrite gate_condition_xorb, Hskip. }
  rewrite Hrun. simpl.
  destruct (run_dependent_spec self (set_units st1 w)) as (Hu & He & Ht & Hp).
  rewrite Hu, He, Ht, Hp. simpl.
  split; [done|]. split; [done|]. split; [done|]. split.
  - by destruct (gate_keeps_fields _ _ _ _ _ self Hgate) as (_ & _ & -> & _).
  - eexists. split; [unfold tasks at 1; simpl; fold (tasks w); reflexivity|].
    destruct (gate_keeps_fields _ _ _ _ _ self Hgate) as (_ & -> & _).
    split.
    + apply NoDup_fmap_2; [by intros ?? [=]|].
      apply NoDup_filter, NoDup_dict_keys.
    + intros dst src'. rewrite list_elem_of_fmap.
      destruct (gate_keeps_fields _ _ _ _ _ dst Hgate)
        as (_ & _ & _ & _ & Hb & Hbn & _).
      split.
      * intros (d & [= -> ->] & Hin).
        apply list_elem_of_filter in Hin as [Hc Hin].
        destruct (gate_keeps_fields _ _ _ _ _ d Hgate)
          as (_ & _ & _ & _ & Hb' & Hbn' & _).
        rewrite gate_condition_xorb, Hb', Hbn' in Hc.
        apply elem_of_dict_keys in Hin. done.
      * intros (-> & Hin & Hc). exists dst. split; [done|].
        apply list_elem_of_filter. split.
        -- by rewrite gate_condition_xorb, Hb, Hbn.
        -- by apply elem_of_dict_keys.
Qed.

(** C2. When the gate lets the trigger through, the skip condition is
    false and [run_lock_] is held, [check_gate_and_run] returns at once:
    no [initialize()], no [run()], no [run_dependent()], nothing handed
    to the pool, and the lock stays with its holder. *)
Theorem overlapping_trigger_is_dropped (self src : nat) w st1 :
  Unit.call_open_gate self src (units w) = (true, st1) →
  xorb (truthy (callvle (gate_skip (units w !!! self)) (env w)))
       (truthy (callvle (gate_skip_not (units w !!! self)) (env w))) = false →
  run_lock_ (units w !!! self) = true →
  Unit.check_gate_and_run self src w = (set_units st1 w, None)
  ∧ trace (fst (Unit.check_gate_and_run self src w)) = trace w
  ∧ pool_ (fst (Unit.check_gate_and_run self src w)) = pool_ w
  ∧ env (fst (Unit.check_gate_and_run self src w)) = env w
  ∧ is_initialized (units (fst (Unit.check_gate_and_run self src w)) !!! self)
    = is_initialized (units w !!! self)
  ∧ run_lock_ (units (fst (Unit.check_gate_and_run self src w)) !!! self) = true.
Proof.
  intros Hgate Hskip Hlock.
  destruct (gate_keeps_fields _ _ _ _ _ self Hgate)
    as (_ & _ & Hi & Hl & _ & _ & Hs & Hsn & _).
  assert (Hrun : Unit.check_gate_and_run self src w = (set_units st1 w, None)).
  { unfold Unit.check_gate_and_run. rewrite Hgate. simpl.
    by rewrite Hs, Hsn, gate_condition_xorb, Hskip, Hl, Hlock. }
  rewrite Hrun. simpl. by rewrite Hi, Hl.
Qed.

(** What the [try] block leaves: the pool is not touched, no
    [run_dependent()] is called, and of the units only [is_initialized]
    of [self] may change. *)
Lemma initialize_and_run_frame self w :
  pool_ (fst (Unit.initialize_and_run self w)) = pool_ w
  ∧ (∃ evs, trace (fst (Unit.initialize_and_run self w)) = trace w ++ evs
            ∧ ∀ x, EvRunDependent x ∉ evs)
  ∧ ∀ y, units (fst (Unit.initialize_and_run self w)) !!! y
         = set_is_initialized
             (is_initialized (units (fst (Unit.initialize_and_run self w)) !!! y))
             (units w !!! y).
Proof.
  assert (Heta : ∀ u : unit_obj Env, set_is_initialized (is_initialized u) u = u)
    by (by intros []).
  unfold Unit.initialize_and_run.
  destruct (is_initialized (units w !!! self)) eqn:Hi; simpl.
  - destruct (run (units w !!! self) (env w)) as [e2 r]. simpl.
    split; [done|]. split; [|done].
    exists [EvRun self]. split; [done|]. intros x Hx.
    by apply list_elem_of_singleton in Hx.
  - destruct (initialize (units w !!! self) (env w)) as [e1 [x|]]; simpl.
    + split; [done|]. split; [|done].
      exists [EvInitialize self]. split; [done|]. intros y Hy.
      by apply list_elem_of_singleton in Hy.
    + rewrite upd_lookup_eq. simpl.
      destruct (run (units w !!! self) e1) as [e2 r]. simpl.
      split; [done|]. split.
      * exists [EvInitialize self; EvWarning self; EvRun self].
        split; [by rewrite <-!app_assoc|]. intros y Hy.
        repeat (apply elem_of_cons in Hy as [Hy|Hy]; [done|]).
        by apply elem_of_nil in Hy.
      * intros y. destruct (decide (y = self)) as [->|Hne].
        -- by rewrite upd_lookup_eq.
        -- by rewrite upd_lookup_ne.
Qed.

(** C6. A trigger that gets [run_lock_]: the lock is free again when
    [check_gate_and_run] is left, however it is left.  When
    [initialize()] raises, the exception leaves [check_gate_and_run],
    [is_initialized] is still false, [run()] is not called and no
    successor is notified.  When [run()] raises, the exception leaves
    [check_gate_and_run] and no successor is notified.  No exception
    leaves it after a call of [run_dependent()]. *)
Theorem exception_releases_lock_and_stops (self src : nat) w st1 :
  Unit.call_open_gate self src (units w) = (true, st1) →
  xorb (truthy (callvle (gate_skip (units w !!! self)) (env w)))
       (truthy (callvle (gate_skip_not (units w !!! self)) (env w))) = false →
  run_lock_ (units w !!! self) = false →
  run_lock_ (units (fst (Unit.check_gate_and_run self src w)) !!! self) = false
  ∧ (∀ e1 x,
       is_initialized (units w !!! self) = false →
       initialize (units w !!! self) (env w) = (e1, Some x) →
       snd (Unit.check_gate_and_run self src w) = Some x
       ∧ is_initialized (units (fst (Unit.check_gate_and_run self src w)) !!! self)
         = false
       ∧ trace (fst (Unit.check_gate_and_run self src w))
         = trace w ++ [EvInitialize self]
       ∧ pool_ (fst (Unit.check_gate_and_run self src w)) = pool_ w)
  ∧ (∀ e1 e2 x,
       (is_initialized (units w !!! self) = true ∧ e1 = env w)
       ∨ (is_initialized (units w !!! self) = false
          ∧ initialize (units w !!! self) (env w) = (e1, None)) →
       run (units w !!! self) e1 = (e2, Some x) →
       snd (Unit.check_gate_and_run self src w) = Some x
       ∧ trace (fst (Unit.check_gate_and_run self src w))
         = trace w
           ++ (if is_initialized (units w !!! self) then []
               else [EvInitialize self; EvWarning self])
           ++ [EvRun self]
       ∧ pool_ (fst (Unit.check_gate_and_run self src w)) = pool_ w)
  ∧ (∀ x,
       snd (Unit.check_gate_and_run self src w) = Some x →
       pool_ (fst (Unit.check_gate_and_run self src w)) = pool_ w
       ∧ ∃ evs,
           trace (fst (Unit.check_gate_and_run self src w)) = trace w ++ evs
           ∧ EvRunDependent self ∉ evs).
Proof.
  intros Hgate Hskip Hlock.
  destruct (gate_keeps_fields _ _ _ _ _ self Hgate)
    as (_ & _ & Hi & Hl & _ & _ & Hs & Hsn & Hinit & Hbody).
  set (w2 := set_units (upd self (set_run_lock_ true) st1) (set_units st1 w)).
  assert (Hrun : Unit.check_gate_and_run self src w
    = let '(w3, r) := Unit.initialize_and_run self w2 in
      let w4 := set_units (upd self (set_run_lock_ false) (units w3)) w3 in
      match r with
      | Some x => (w4, Some x)
      | None => (Unit.run_dependent self w4, None)
      end).
  { unfold Unit.check_gate_and_run. rewrite Hgate. simpl.
    by rewrite Hs, Hsn, gate_condition_xorb, Hskip, Hl, Hlock. }
  assert (Hno : ∀ ev : event, ev ≠ EvRunDependent self →
                  EvRunDependent self ∉ [ev]).
  { intros ev Hev Hin. apply list_elem_of_singleton in Hin. congruence. }
  rewrite Hrun. clear Hrun. unfold Unit.initialize_and_run, w2. simpl.
  rewrite !upd_lookup_eq. simpl. rewrite Hi, Hinit.
  destruct (is_initialized (units w !!! self)) eqn:Hinitd; simpl.
  - rewrite upd_lookup_eq. simpl. rewrite Hbody.
    destruct (run (units w !!! self) (env w)) as [e2 [x|]] eqn:Hr; simpl.
    + rewrite !upd_lookup_eq. simpl.
      split; [done|]. split; [by intros|]. split.
      * intros e1 e0 x0 [[_ ->]|[? _]] Hrun; [|done].
        rewrite Hr in Hrun. by injection Hrun as _ ->.
      * intros x0 _. split; [done|]. exists [EvRun self]. split; [done|].
        by apply Hno.
    + match goal with
      | |- context [Unit.run_dependent self ?w0] =>
          destruct (run_dependent_spec self w0) as (-> & _)
      end.
      simpl. rewrite !upd_lookup_eq. simpl.
      split; [done|]. split; [by intros|]. split; [|by intros].
      intros e1 e0 x0 [[_ ->]|[? _]] Hrun; [|done].
      by rewrite Hr in Hrun.
  - destruct (initialize (units w !!! self) (env w)) as [e1 [x|]] eqn:Hini; simpl.
    + rewrite !upd_lookup_eq. simpl. rewrite Hi.
      split; [done|]. split.
      * intros e0 x0 _ [= -> ->]. done.
      * split.
        -- intros e0 e2 x0 [[? _]|[_ ?]] Hrun; done.
        -- intros x0 _. split; [done|]. exists [EvInitialize self].
           split; [done|]. by apply Hno.
    + rewrite !upd_lookup_eq. simpl. rewrite Hbody.
      destruct (run (units w !!! self) e1) as [e2 [x|]] eqn:Hr; simpl.
      * rewrite !upd_lookup_eq. simpl.
        split; [done|]. split; [by intros|]. split.
        -- intros e0 e3 x0 [[? _]|[_ [= ->]]] Hrun; [done|].
           rewrite Hr in Hrun. injection Hrun as _ ->.
           by rewrite <-!app_assoc.
        -- intros x0 _. split; [done|].
           exists [EvInitialize self; EvWarning self; EvRun self].
           split; [by rewrite <-!app_assoc|]. intros Hin.
           repeat (apply elem_of_cons in Hin as [Hin|Hin]; [done|]).
           by apply elem_of_nil in Hin.
      * match goal with
        | |- context [Unit.run_dependent self ?w0] =>
            destruct (run_dependent_spec self w0) as (-> & _)
        end.
        simpl. rewrite !upd_lookup_eq. simpl.
        split; [done|]. split; [by intros|]. split; [|by intros].
        intros e0 e3 x0 [[? _]|[_ [= ->]]] Hrun; [done|].
        by rewrite Hr in Hrun.
Qed.

End dispatch.

Section link_facts.
Context {Env : Type}.
Implicit Types (st : gmap nat (unit_obj Env)).

Lemma link_from_links_from self src st y :
  links_from (Unit.link_from self src st !!! y)
  = if decide (y = self) then <[src := false]> (links_from (st !!! y))
    else links_from (st !!! y).
Proof.
  unfold Unit.link_from.
  destruct (decide (y = src)) as [Hsrc|Hsrc], (decide (y = self)) as [Hself|Hself];
        subst;
    rewrite ?upd_lookup_eq, ?upd_lookup_ne by done; simpl;
    rewrite ?upd_lookup_eq, ?upd_lookup_ne by done; done.
Qed.

Lemma link_from_links_to self src st y :
  links_to (Unit.link_from self src st !!! y)
  = if decide (y = src) then <[self := false]> (links_to (st !!! y))
    else links_to (st !!! y).
Proof.
  unfold Unit.link_from.
  destruct (decide (y = src)) as [Hsrc|Hsrc], (decide (y = self)) as [Hself|Hself];
        subst;
    rewrite ?upd_lookup_eq, ?upd_lookup_ne by done; simpl;
    rewrite ?upd_lookup_eq, ?upd_lookup_ne by done; done.
Qed.

Lemma del_links_to_ok owner key st :
  is_Some (links_to (st !!! owner) !! key) →
  Unit.del_links_to owner key st
  = (upd owner (λ u, set_links_to (delete key (links_to u)) u) st, None).
Proof. intros [v Hv]. unfold Unit.del_links_to. by rewrite Hv. Qed.

Lemma del_links_from_ok owner key st :
  is_Some (links_from (st !!! owner) !! key) →
  Unit.del_links_from owner key st
  = (upd owner (λ u, set_links_from (delete key (links_from u)) u) st, None).
Proof. intros [v Hv]. unfold Unit.del_links_from. by rewrite Hv. Qed.

Lemma unlink_from_links_to self src st y :
  links_to (Unit.unlink_from self src st !!! y)
  = if decide (y = src) then delete self (links_to (st !!! y))
    else links_to (st !!! y).
Proof.
  unfold Unit.unlink_from, Unit.del_links_to, Unit.del_links_from.
  destruct (links_to (st !!! src) !! self) eqn:Hto; simpl.
  - destruct (links_from (upd src _ st !!! self) !! src) eqn:Hfrom; simpl.
    + destruct (decide (y = src)) as [Hsrc|Hsrc], (decide (y = self)) as [Hself|Hself];
        subst;
        rewrite ?upd_lookup_eq, ?upd_lookup_ne by done; simpl;
        rewrite ?upd_lookup_eq, ?upd_lookup_ne by done; done.
    + destruct (decide (y = src)) as [->|Hsrc];
        rewrite ?upd_lookup_eq, ?upd_lookup_ne by done; done.
  - assert (Hdel : delete self (links_to (st !!! src)) = links_to (st !!! src))
      by (by apply delete_id).
    destruct (links_from (st !!! self) !! src) eqn:Hfrom; simpl.
    + destruct (decide (y = src)) as [Hsrc|Hsrc], (decide (y = self)) as [Hself|Hself];
        subst;
        rewrite ?upd_lookup_eq, ?upd_lookup_ne by done; simpl; by rewrite ?Hdel.
    + case_decide; by subst; rewrite ?Hdel.
Qed.

Lemma unlink_from_links_from self src st y :
  links_from (Unit.unlink_from self src st !!! y)
  = if decide (y = self) then delete src (links_from (st !!! y))
    else links_from (st !!! y).
Proof.
  unfold Unit.unlink_from, Unit.del_links_to, Unit.del_links_from.
  assert (Hsame : ∀ f : unit_obj Env → unit_obj Env,
            (∀ u, links_from (f u) = links_from u) →
            ∀ z, links_from (upd src f st !!! z) = links_from (st !!! z)).
  { intros f Hf z. destruct (decide (z = src)) as [->|Hz].
    - by rewrite upd_lookup_eq, Hf.
    - by rewrite upd_lookup_ne. }
  destruct (links_to (st !!! src) !! self) eqn:Hto; simpl.
  - rewrite Hsame by done.
    destruct (links_from (st !!! self) !! src) eqn:Hfrom; simpl.
    + destruct (decide (y = self)) as [->|Hself].
      * rewrite upd_lookup_eq. simpl. by rewrite Hsame.
      * rewrite upd_lookup_ne by done. by rewrite Hsame.
    + rewrite Hsame by done. case_decide; [|done]. subst.
      by rewrite delete_id.
  - destruct (links_from (st !!! self) !! src) eqn:Hfrom; simpl.
    + destruct (decide (y = self)) as [->|Hself].
      * by rewrite upd_lookup_eq.
      * by rewrite upd_lookup_ne.
    + case_decide; [|done]. subst. by rewrite delete_id.
Qed.

Lemma for_each_del_links_to self (ks : list nat) st :
  NoDup ks →
  (∀ k, k ∈ ks → is_Some (links_to (st !!! k) !! self)) →
  ∃ st',
    Unit.for_each (λ src, Unit.del_links_to src self) ks st = (st', None)
    ∧ (∀ y, links_to (st' !!! y)
            = if decide (y ∈ ks) then delete self (links_to (st !!! y))
              else links_to (st !!! y))
    ∧ (∀ y, links_from (st' !!! y) = links_from (st !!! y)).
Proof.
  revert st. induction ks as [|k rest IH]; intros st Hnd Hin; simpl.
  - exists st. split; [done|]. split; [|done]. intros y.
    destruct (decide (y ∈ [])) as [Hy|_]; [by apply elem_of_nil in Hy|done].
  - apply NoDup_cons in Hnd as [Hk Hnd].
    rewrite del_links_to_ok by (apply Hin; left).
    set (st1 := upd k (λ u, set_links_to (delete self (links_to u)) u) st).
    destruct (IH st1 Hnd) as (st' & Heq & Hto & Hfrom).
    { intros k' Hk'. unfold st1. rewrite upd_lookup_ne by (by intros ->).
      apply Hin. by right. }
    exists st'. split; [done|]. split.
    + intros y. rewrite Hto. unfold st1.
      destruct (decide (y = k)) as [->|Hy].
      * rewrite decide_False by done. rewrite decide_True by left.
        by rewrite upd_lookup_eq.
      * rewrite upd_lookup_ne by done.
        destruct (decide (y ∈ rest)) as [Hr|Hr].
        -- by rewrite decide_True by (by right).
        -- rewrite decide_False; [done|]. by intros [?|?]%elem_of_cons.
    + intros y. rewrite Hfrom. unfold st1.
      destruct (decide (y = k)) as [->|Hy].
      * by rewrite upd_lookup_eq.
      * by rewrite upd_lookup_ne.
Qed.

Lemma for_each_del_links_from self (ks : list nat) st :
  NoDup ks →
  (∀ k, k ∈ ks → is_Some (links_from (st !!! k) !! self)) →
  ∃ st',
    Unit.for_each (λ dst, Unit.del_links_from dst self) ks st = (st', None)
    ∧ (∀ y, links_from (st' !!! y)
            = if decide (y ∈ ks) then delete self (links_from (st !!! y))
              else links_from (st !!! y))
    ∧ (∀ y, links_to (st' !!! y) = links_to (st !!! y)).
Proof.
  revert st. induction ks as [|k rest IH]; intros st Hnd Hin; simpl.
  - exists st. split; [done|]. split; [|done]. intros y.
    destruct (decide (y ∈ [])) as [Hy|_]; [by apply elem_of_nil in Hy|done].
  - apply NoDup_cons in Hnd as [Hk Hnd].
    rewrite del_links_from_ok by (apply Hin; left).
    set (st1 := upd k (λ u, set_links_from (delete self (links_from u)) u) st).
    destruct (IH st1 Hnd) as (st' & Heq & Hfrom & Hto).
    { intros k' Hk'. unfold st1. rewrite upd_lookup_ne by (by intros ->).
      apply Hin. by right. }
    exists st'. split; [done|]. split.
    + intros y. rewrite Hfrom. unfold st1.
      destruct (decide (y = k)) as [->|Hy].
      * rewrite decide_False by done. rewrite decide_True by left.
        by rewrite upd_lookup_eq.
      * rewrite upd_lookup_ne by done.
        destruct (decide (y ∈ rest)) as [Hr|Hr].
        -- by rewrite decide_True by (by right).
        -- rewrite decide_False; [done|]. by intros [?|?]%elem_of_cons.
    + intros y. rewrite Hto. unfold st1.
      destruct (decide (y = k)) as [->|Hy].
      * by rewrite upd_lookup_eq.
      * by rewrite upd_lookup_ne.
Qed.

Lemma unlink_from_all_spec self st :
  bidirectional st →
  ∃ st',
    Unit.unlink_from_all self st = (st', None)
    ∧ (∀ y, links_to (st' !!! y)
            = if decide (y = self) then ∅ else delete self (links_to (st !!! y)))
    ∧ (∀ y, links_from (st' !!! y)
            = if decide (y = self) then ∅
              else delete self (links_from (st !!! y))).
Proof.
  intros Hbi. unfold Unit.unlink_from_all.
  destruct (for_each_del_links_to self (dict_keys (links_from (st !!! self))) st)
    as (st1 & -> & Hto1 & Hfrom1).
  { apply NoDup_dict_keys. }
  { intros k Hk. apply Hbi. by apply elem_of_dict_keys. }
  assert (Hsub : ∀ k, is_Some (links_to (st1 !!! self) !! k) →
                      is_Some (links_to (st !!! self) !! k)).
  { intros k. rewrite Hto1. case_decide; [|done].
    rewrite lookup_delete. case_decide; [by intros [? ?]|done]. }
  destruct (for_each_del_links_from self (dict_keys (links_to (st1 !!! self))) st1)
    as (st2 & -> & Hfrom2 & Hto2).
  { apply NoDup_dict_keys. }
  { intros k Hk. rewrite Hfrom1. apply Hbi, Hsub. by apply elem_of_dict_keys. }
  eexists. split; [done|]. split.
  - intros y. destruct (decide (y = self)) as [->|Hy].
    + by rewrite upd_lookup_eq.
    + rewrite !upd_lookup_ne by done. rewrite Hto2, Hto1.
      case_decide as Hin; [done|]. symmetry. apply delete_id.
      apply eq_None_not_Some. intros Hs. apply Hin, elem_of_dict_keys.
      by apply Hbi.
  - intros y. destruct (decide (y = self)) as [->|Hy].
    + rewrite upd_lookup_eq. simpl. by rewrite upd_lookup_eq.
    + rewrite !upd_lookup_ne by done. rewrite Hfrom2, Hfrom1.
      case_decide as Hin; [done|]. symmetry. apply delete_id.
      apply eq_None_not_Some. intros Hs. apply Hin, elem_of_dict_keys.
      rewrite Hto1. apply Hbi in Hs.
      case_decide; [|done]. by rewrite lookup_delete_ne.
Qed.

Lemma open_gate_keys self src st y a :
  is_Some (links_from (snd (Unit.open_gate self src st) !!! y) !! a)
  ↔ is_Some (links_from (st !!! y) !! a).
Proof.
  destruct (decide (links_from (st !!! self) = ∅)) as [He|Hne].
  - by rewrite (open_gate_empty _ _ _ He).
  - destruct (open_gate_nonempty self src st Hne) as (st' & -> & Hself & Hother).
    simpl. destruct (decide (y = self)) as [->|Hy].
    + rewrite Hself. simpl.
      destruct (all _); rewrite ?lookup_fmap, ?fmap_is_Some, mark_lookup;
        case_decide; subst; by rewrite ?fmap_is_Some.
    + by rewrite Hother.
Qed.

(** C7. Every store built from freshly constructed units by [link_from],
    [unlink_from] and [unlink_from_all] (and gate checks) is
    bidirectional, and [unlink_from_all] raises nothing on it; and
    [unlink_from] of an edge that neither side holds leaves the store as
    it is. *)
Theorem links_stay_bidirectional :
  (∀ st : gmap nat (unit_obj Env),
     built st →
     bidirectional st ∧ ∀ self, snd (Unit.unlink_from_all self st) = None)
  ∧ (∀ (st : gmap nat (unit_obj Env)) self src,
       links_from (st !!! self) !! src = None →
       links_to (st !!! src) !! self = None →
       Unit.unlink_from self src st = st).
Proof.
  split.
  - intros st Hb.
    assert (Hbi : bidirectional st).
    { induction Hb as [st Hfresh|self src st _ IH|self src st _ IH
                       |self st _ IH|x src st _ IH]; intros a b.
      - destruct (Hfresh a) as [_ ->], (Hfresh b) as [-> _].
        by rewrite !lookup_empty.
      - rewrite link_from_links_to, link_from_links_from.
        destruct (decide (a = src)) as [->|Ha], (decide (b = self)) as [->|Hb'];
          rewrite ?lookup_insert_eq, ?lookup_insert_ne by done;
          first [done | apply IH].
      - rewrite unlink_from_links_to, unlink_from_links_from.
        destruct (decide (a = src)) as [->|Ha], (decide (b = self)) as [->|Hb'];
          rewrite ?lookup_delete_eq, ?lookup_delete_ne by done;
          first [apply IH | split; by intros [? ?]].
      - destruct (unlink_from_all_spec self st IH) as (st' & -> & Hto & Hfrom).
        simpl. rewrite Hto, Hfrom.
        destruct (decide (a = self)) as [->|Ha], (decide (b = self)) as [->|Hb'];
          rewrite ?lookup_empty, ?lookup_delete_eq;
          try (split; by intros [? ?]).
        rewrite !lookup_delete_ne by done. apply IH.
      - destruct (Unit.call_open_gate x src st) as [o st1] eqn:Hg. simpl.
        destruct (gate_keeps_fields _ _ _ _ _ a Hg) as (_ & -> & _).
        rewrite (IH a b). unfold Unit.call_open_gate in Hg.
        destruct (cls (st !!! x)).
        + pose proof (open_gate_keys x src st b a) as Hk.
          rewrite Hg in Hk. by symmetry.
        + by injection Hg as _ <-. }
    split; [done|]. intros self.
    by destruct (unlink_from_all_spec self st Hbi) as (st' & -> & _).
  - intros st self src Hfrom Hto. unfold Unit.unlink_from.
    by rewrite Hto, Hfrom.
Qed.

End link_facts.

Section pickle_facts.
Context {Env : Type}.
Implicit Types (state d : gmap string (pyval Env)) (h : heap Env).

Lemma last_char_cons (a : Ascii.ascii) (k : string) :
  Pickleable.last_char (String a k)
  = match k with
    | EmptyString => Some a
    | _ => Pickleable.last_char k
    end.
Proof. unfold Pickleable.last_char. by destruct k. Qed.

Lemma last_char_suffix (k : string) (c : Ascii.ascii) :
  Pickleable.last_char k = Some c ↔ ∃ p, k = String.append p (String c EmptyString).
Proof.
  induction k as [|a k IH].
  - split; [done|]. intros [[|b p] Hp]; discriminate.
  - rewrite last_char_cons. destruct k as [|b k].
    + split.
      * intros [= ->]. by exists EmptyString.
      * intros [[|a' [|b' p]] Hp];
          cbv beta iota delta [String.append] in Hp; by simplify_eq.
    + rewrite IH. split.
      * intros [p ->]. by exists (String a p).
      * intros [[|a' p] Hp];
          cbv beta iota delta [String.append] in Hp;
          fold String.append in Hp; simplify_eq. by exists p.
Qed.

Lemma last_char_None (k : string) :
  Pickleable.last_char k = None ↔ k = EmptyString.
Proof.
  induction k as [|a k IH]; [done|].
  rewrite last_char_cons. destruct k; [done|].
  rewrite IH. done.
Qed.

Lemma getstate_items_spec (items : list (string * pyval Env)) state :
  NoDup items.*1 →
  (∀ v, (EmptyString, v) ∉ items) →
  ∃ state',
    Pickleable.getstate_items items state = (state', None)
    ∧ ∀ k,
        state' !! k
        = match (list_to_map items : gmap string (pyval Env)) !! k with
          | Some v => Some (if transient k || callable v then PyNone else v)
          | None => state !! k
          end.
Proof.
  revert state. induction items as [|[k v] rest IH]; intros state Hnd Hne.
  - exists state. split; [done|]. intros k. simpl. by rewrite lookup_empty.
  - simpl in Hnd. apply NoDup_cons in Hnd as [Hk Hnd]. simpl.
    destruct (Pickleable.last_char k) as [c|] eqn:Hc.
    + assert (Hrest : ∀ v0, (EmptyString, v0) ∉ rest).
      { intros v0 Hin. apply (Hne v0). by right. }
      assert (Hnone : (list_to_map rest : gmap string (pyval Env)) !! k = None).
      { by apply not_elem_of_list_to_map_1. }
      destruct (negb (Ascii.eqb c "_") && negb (callable v)) eqn:Hkeep.
      * destruct (IH (<[k := v]> state) Hnd Hrest) as (state' & -> & Hst).
        exists state'. split; [done|]. intros k'. rewrite Hst.
        destruct (decide (k' = k)) as [->|Hk'].
        -- rewrite Hnone, !lookup_insert_eq. unfold transient. rewrite Hc.
           apply andb_true_iff in Hkeep as [H1 H2].
           apply negb_true_iff in H1, H2. by rewrite H1, H2.
        -- by rewrite !lookup_insert_ne.
      * destruct (IH (<[k := PyNone]> state) Hnd Hrest) as (state' & -> & Hst).
        exists state'. split; [done|]. intros k'. rewrite Hst.
        destruct (decide (k' = k)) as [->|Hk'].
        -- rewrite Hnone, !lookup_insert_eq. unfold transient. rewrite Hc.
           apply andb_false_iff in Hkeep as [H1|H1];
             apply negb_false_iff in H1; rewrite H1; by rewrite ?orb_true_r.
        -- by rewrite !lookup_insert_ne.
    + exfalso. apply last_char_None in Hc as ->. apply (Hne v). left.
Qed.

Lemma getstate_spec h :
  __dict__ h !! EmptyString = None →
  ∃ state,
    Pickleable.__getstate__ h = (state, None)
    ∧ ∀ k,
        state !! k
        = (λ v, if transient k || callable v then PyNone else v)
            <$> __dict__ h !! k.
Proof.
  intros Hne. unfold Pickleable.__getstate__.
  destruct (getstate_items_spec (map_to_list (__dict__ h)) ∅)
    as (state & Heq & Hst).
  - apply NoDup_fst_map_to_list.
  - intros v Hin. apply elem_of_map_to_list in Hin. congruence.
  - exists state. split; [done|]. intros k.
    rewrite Hst, list_to_map_to_list, lookup_empty.
    by destruct (__dict__ h !! k).
Qed.

Lemma transient_suffix (k : string) :
  transient k = true ↔ ∃ p, k = String.append p "_".
Proof.
  rewrite <-(last_char_suffix k "_"). unfold transient.
  destruct (Pickleable.last_char k) as [c|]; [|done].
  rewrite Ascii.eqb_eq. split; congruence.
Qed.

(** C8, as the code has it.  [__getstate__] keeps every attribute name
    (none of them empty) in the pickled state; it puts [None] in the place
    of the value of an attribute whose name ends with an underscore or
    whose value is callable, and keeps every other value as it is.
    [__setstate__] on a unit ends in [init_unpickled], which leaves in
    [gate_lock_] and [run_lock_] two distinct locks that did not exist
    before and are not held, leaves the earlier locks alone, and sets
    [is_initialized] to false. *)
Theorem getstate_blanks_setstate_rebuilds
    (Logger_init_unpickled :
       option (gmap string (pyval Env) → gmap string (pyval Env))) h :
  (__dict__ h !! EmptyString = None →
   ∃ state,
     Pickleable.__getstate__ h = (state, None)
     ∧ ∀ k,
         state !! k
         = (λ v, if transient k || callable v then PyNone else v)
             <$> __dict__ h !! k)
  ∧ (∀ k, transient k = true ↔ ∃ p, k = String.append p "_")
  ∧ (∀ self state,
       ∃ g r,
         __dict__ (Unit.__setstate__ Logger_init_unpickled self state h)
           !! "gate_lock_" = Some (PyLock g)
         ∧ __dict__ (Unit.__setstate__ Logger_init_unpickled self state h)
             !! "run_lock_" = Some (PyLock r)
         ∧ g ≠ r
         ∧ locks h !! g = None ∧ locks h !! r = None
         ∧ locks (Unit.__setstate__ Logger_init_unpickled self state h) !! g
           = Some false
         ∧ locks (Unit.__setstate__ Logger_init_unpickled self state h) !! r
           = Some false
         ∧ (∀ i b, locks h !! i = Some b →
              locks (Unit.__setstate__ Logger_init_unpickled self state h) !! i
              = Some b)
         ∧ __dict__ (Unit.__setstate__ Logger_init_unpickled self state h)
             !! "is_initialized" = Some (PyBool false)).
Proof.
  split; [apply getstate_spec|]. split; [apply transient_suffix|].
  intros self state.
  exists (length (locks h)), (S (length (locks h))).
  unfold Unit.__setstate__, Pickleable.__setstate__, Unit.init_unpickled,
    Unit.new_lock, Pickleable.init_unpickled.
  destruct Logger_init_unpickled as [f|]; simpl;
    rewrite ?length_app; simpl; rewrite ?Nat.add_1_r.
  all: split; [by rewrite lookup_insert_ne, lookup_insert_ne, lookup_insert_eq|].
  all: split; [by rewrite lookup_insert_ne, lookup_insert_eq|].
  all: split; [lia|].
  all: split; [by apply lookup_ge_None_2|].
  all: split; [apply lookup_ge_None_2; lia|].
  all: split; [rewrite <-app_assoc; by apply list_lookup_middle|].
  all: split; [by apply (list_lookup_middle _ []); rewrite length_app, Nat.add_1_r|].
  all: split; [|by rewrite lookup_insert_eq].
  all: intros i b Hi; rewrite <-app_assoc; by apply lookup_app_l_Some.
Qed.

End pickle_facts.

(** On an object with the attributes [run_lock_], [name] and [run]: the
    state keeps the three names, with [None] for the lock and for the
    callable; unpickling makes two distinct new locks. *)
Lemma getstate_blanks_setstate_rebuilds_witness :
  (∃ state,
     Pickleable.__getstate__ Examples.pickled = (state, None)
     ∧ state !! "run_lock_" = Some PyNone
     ∧ state !! "run" = Some PyNone
     ∧ state !! "name" = Some (PyStr "a"))
  ∧ (∃ g r,
       __dict__ (Unit.__setstate__ None 7 ∅ Examples.pickled) !! "gate_lock_"
       = Some (PyLock g)
       ∧ __dict__ (Unit.__setstate__ None 7 ∅ Examples.pickled) !! "run_lock_"
         = Some (PyLock r)
       ∧ g ≠ r ∧ locks Examples.pickled !! g = None).
Proof.
  destruct (getstate_blanks_setstate_rebuilds None Examples.pickled)
    as (Hget & _ & Hset).
  split.
  - destruct Hget as (state & Heq & Hst); [vm_compute; reflexivity|].
    exists state. split; [exact Heq|]. rewrite !Hst.
    split; [vm_compute; reflexivity|]. split; vm_compute; reflexivity.
  - destruct (Hset 7 ∅) as (g & r & Hg & Hr & Hne & Hfresh & _).
    exists g, r. split; [exact Hg|]. split; [exact Hr|]. split; assumption.
Defined.

(** C8 as the claim words it fails: the names of the attributes that end
    with an underscore or hold a callable are in the pickled state. *)
Lemma getstate_keeps_transient_names :
  ¬ (∀ (h : heap nat) k v,
       __dict__ h !! k = Some v →
       transient k = true ∨ callable v = true →
       fst (Pickleable.__getstate__ h) !! k = None).
Proof.
  intros H.
  assert (Hk : __dict__ Examples.pickled !! "run_lock_" = Some (PyLock 0))
    by (vm_compute; reflexivity).
  specialize (H Examples.pickled "run_lock_" (PyLock 0) Hk (or_introl eq_refl)).
  vm_compute in H. discriminate H.
Qed.

Section traversal_facts.
Context {Env : Type}.
Implicit Types (st : gmap nat (unit_obj Env)) (w : world Env) (K : gset nat).

Lemma call_open_gate_other x src st y :
  y ≠ x → snd (Unit.call_open_gate x src st) !!! y = st !!! y.
Proof.
  intros Hy. unfold Unit.call_open_gate. destruct (cls (st !!! x)); [|done].
  destruct (decide (links_from (st !!! x) = ∅)) as [He|Hne].
  - by rewrite (open_gate_empty _ _ _ He).
  - destruct (open_gate_nonempty x src st Hne) as (st' & -> & _ & Hother).
    by apply Hother.
Qed.

Lemma only_initializes_refl w : only_initializes w w.
Proof.
  split; [done|]. split; [|done]. exists []. by rewrite app_nil_r.
Qed.

Lemma only_initializes_trans w1 w2 w3 :
  only_initializes w1 w2 → only_initializes w2 w3 → only_initializes w1 w3.
Proof.
  intros (Hp1 & (ev1 & Ht1 & Hf1) & Hl1 & Hi1) (Hp2 & (ev2 & Ht2 & Hf2) & Hl2 & Hi2).
  split; [congruence|]. split; [|split].
  - exists (ev1 ++ ev2). split.
    + by rewrite Ht2, Ht1, app_assoc.
    + by apply Forall_app.
  - intros x. by rewrite Hl2.
  - intros x Hx. rewrite Hi2; [by apply Hi1|]. by rewrite Hi1.
Qed.

(** The gate check of a unit that is not initialized. *)
Lemma only_initializes_gate dst src w b st1 :
  is_initialized (units w !!! dst) = false →
  Unit.call_open_gate dst src (units w) = (b, st1) →
  only_initializes w (set_units st1 w).
Proof.
  intros Hd Hg. split; [done|]. split; [|split].
  - exists []. by rewrite app_nil_r.
  - intros x. simpl. by destruct (gate_keeps_fields _ _ _ _ _ x Hg) as (_ & -> & _).
  - intros x Hx. simpl.
    pose proof (call_open_gate_other dst src (units w) x) as Ho.
    rewrite Hg in Ho. apply Ho. intros ->. congruence.
Qed.

(** The call of [initialize()] on a unit that is not initialized, and the
    assignment [dst.is_initialized = True]. *)
Lemma only_initializes_mark dst e1 w :
  is_initialized (units w !!! dst) = false →
  only_initializes w
    (set_units (upd dst (set_is_initialized true)
                    (units (set_env e1 (log (EvInitialize dst) w))))
               (set_env e1 (log (EvInitialize dst) w))).
Proof.
  intros Hd. split; [done|]. split; [|split].
  - exists [EvInitialize dst]. split; [done|]. constructor; [by eexists|done].
  - intros x. simpl. destruct (decide (x = dst)) as [->|Hx].
    + by rewrite upd_lookup_eq.
    + by rewrite upd_lookup_ne.
  - intros x Hx. simpl. rewrite upd_lookup_ne; [done|]. intros ->. congruence.
Qed.

Lemma only_initializes_raise dst e1 w :
  only_initializes w (set_env e1 (log (EvInitialize dst) w)).
Proof.
  split; [done|]. split; [|done].
  exists [EvInitialize dst]. split; [done|]. constructor; [by eexists|done].
Qed.

Lemma initialize_successors_only rec self (dsts : list nat) :
  (∀ d w w' r, rec d w = Some (w', r) → only_initializes w w') →
  ∀ w w' r,
    Unit.initialize_successors rec self dsts w = Some (w', r) →
    only_initializes w w'.
Proof.
  intros Hrec. induction dsts as [|dst rest IH]; intros w w' r; simpl.
  - intros [= <- _]. apply only_initializes_refl.
  - destruct (is_initialized (units w !!! dst)) eqn:Hd; [apply IH|].
    destruct (Unit.call_open_gate dst self (units w)) as [opened st1] eqn:Hg.
    pose proof (only_initializes_gate _ _ _ _ _ Hd Hg) as H1.
    assert (Hd1 : is_initialized (units (set_units st1 w) !!! dst) = false).
    { simpl. by destruct (gate_keeps_fields _ _ _ _ _ dst Hg) as (_ & _ & -> & _). }
    destruct opened; simpl.
    + destruct (initialize (st1 !!! dst) (env w)) as [e1 [x|]] eqn:Hini.
      * intros [= <- _]. eapply only_initializes_trans; [exact H1|].
        apply (only_initializes_raise dst e1 (set_units st1 w)).
      * pose proof (only_initializes_mark dst e1 _ Hd1) as H2.
        destruct (rec dst _) as [[w4 [x|]]|] eqn:Hr; [| |done].
        -- intros [= <- _]. apply Hrec in Hr.
           eapply only_initializes_trans; [exact H1|].
           eapply only_initializes_trans; [exact H2|exact Hr].
        -- intros Hrest. apply Hrec in Hr. apply IH in Hrest.
           eapply only_initializes_trans; [exact H1|].
           eapply only_initializes_trans; [exact H2|].
           eapply only_initializes_trans; [exact Hr|exact Hrest].
    + intros Hrest. apply IH in Hrest.
      eapply only_initializes_trans; [exact H1|exact Hrest].
Qed.

Lemma initialize_dependent_only fuel self w w' r :
  Unit.initialize_dependent fuel self w = Some (w', r) →
  only_initializes w w'.
Proof.
  revert self w w' r. induction fuel as [|fuel IH]; intros self w w' r; [done|].
  simpl. apply initialize_successors_only. intros d. apply IH.
Qed.

Lemma initialize_successors_mono rec1 rec2 self (dsts : list nat) :
  (∀ d w res, rec1 d w = Some res → rec2 d w = Some res) →
  ∀ w res,
    Unit.initialize_successors rec1 self dsts w = Some res →
    Unit.initialize_successors rec2 self dsts w = Some res.
Proof.
  intros Hrec. induction dsts as [|dst rest IH]; intros w res; simpl; [done|].
  destruct (is_initialized (units w !!! dst)); [apply IH|].
  destruct (Unit.call_open_gate dst self (units w)) as [opened st1].
  destruct opened; simpl; [|apply IH].
  destruct (initialize (st1 !!! dst) (env w)) as [e1 [x|]]; [done|].
  destruct (rec1 dst _) as [[w4 r4]|] eqn:Hr; [|done].
  rewrite (Hrec _ _ _ Hr). destruct r4; [done|apply IH].
Qed.

Lemma initialize_dependent_mono fuel fuel' self w res :
  fuel ≤ fuel' →
  Unit.initialize_dependent fuel self w = Some res →
  Unit.initialize_dependent fuel' self w = Some res.
Proof.
  revert fuel' self w res.
  induction fuel as [|fuel IH]; intros fuel' self w res Hle; [done|].
  destruct fuel' as [|fuel']; [lia|]. simpl.
  apply initialize_successors_mono. intros d w0 res0. apply IH. lia.
Qed.


Lemma pending_mono K w w' :
  (∀ x, is_initialized (units w !!! x) = true →
        is_initialized (units w' !!! x) = true) →
  pending K w' ≤ pending K w.
Proof.
  intros Hmono. unfold pending. apply subseteq_size.
  intros k. rewrite !elem_of_filter. intros [Hk HK]. split; [|done].
  destruct (is_initialized (units w !!! k)) eqn:Hi; [|done].
  apply Hmono in Hi. congruence.
Qed.

Lemma pending_lt K w w' dst :
  dst ∈ K →
  is_initialized (units w !!! dst) = false →
  is_initialized (units w' !!! dst) = true →
  (∀ x, is_initialized (units w !!! x) = true →
        is_initialized (units w' !!! x) = true) →
  pending K w' < pending K w.
Proof.
  intros HK Hd Hd' Hmono. unfold pending. apply subset_size. split.
  - intros k. rewrite !elem_of_filter. intros [Hk Hin]. split; [|done].
    destruct (is_initialized (units w !!! k)) eqn:Hi; [|done].
    apply Hmono in Hi. congruence.
  - intros Hsub. specialize (Hsub dst). rewrite !elem_of_filter in Hsub.
    destruct Hsub as [Hf _]; [done|]. congruence.
Qed.

Lemma only_initializes_pending K w w' :
  only_initializes w w' → pending K w' ≤ pending K w.
Proof.
  intros (_ & _ & _ & Hi). apply pending_mono. intros x Hx.
  by rewrite (Hi x Hx).
Qed.

Lemma only_initializes_closed K w w' :
  only_initializes w w' →
  (∀ x d, is_Some (links_to (units w !!! x) !! d) → d ∈ K) →
  (∀ x d, is_Some (links_to (units w' !!! x) !! d) → d ∈ K).
Proof.
  intros (_ & _ & Hl & _) Hc x d. rewrite Hl. apply Hc.
Qed.

Lemma initialize_dependent_total fuel K self w :
  (∀ x d, is_Some (links_to (units w !!! x) !! d) → d ∈ K) →
  pending K w < fuel →
  is_Some (Unit.initialize_dependent fuel self w).
Proof.
  revert self w. induction fuel as [|fuel IHf]; intros self w Hc Hp; [lia|].
  simpl.
  cut (∀ dsts : list nat, (∀ d, d ∈ dsts → d ∈ K) →
         ∀ w0, (∀ x d, is_Some (links_to (units w0 !!! x) !! d) → d ∈ K) →
           pending K w0 ≤ fuel →
           is_Some (Unit.initialize_successors
                      (Unit.initialize_dependent fuel) self dsts w0)).
  { intros Hloop. apply Hloop; [|done|lia].
    intros d Hd. apply (Hc self). by apply elem_of_dict_keys. }
  clear w Hc Hp. intros dsts Hkeys.
  induction dsts as [|dst rest IH]; intros w Hc Hle; simpl; [done|].
  assert (HK : dst ∈ K) by (apply Hkeys; left).
  assert (Hrest : ∀ d, d ∈ rest → d ∈ K) by (intros d Hd; apply Hkeys; by right).
  destruct (is_initialized (units w !!! dst)) eqn:Hd; [by apply IH|].
  destruct (Unit.call_open_gate dst self (units w)) as [opened st1] eqn:Hg.
  pose proof (only_initializes_gate _ _ _ _ _ Hd Hg) as H1.
  assert (Hd1 : is_initialized (units (set_units st1 w) !!! dst) = false).
  { simpl. by destruct (gate_keeps_fields _ _ _ _ _ dst Hg) as (_ & _ & -> & _). }
  pose proof (only_initializes_closed K _ _ H1 Hc) as Hc1.
  pose proof (only_initializes_pending K _ _ H1) as Hp1.
  destruct opened; simpl.
  - destruct (initialize (st1 !!! dst) (env w)) as [e1 [x|]] eqn:Hini; [done|].
    pose proof (only_initializes_mark dst e1 _ Hd1) as H2.
    pose proof (only_initializes_closed K _ _ H2 Hc1) as Hc2.
    match type of H2 with
    | only_initializes _ ?w3 =>
        assert (Hp3 : pending K w3 < pending K (set_units st1 w))
    end.
    { apply (pending_lt K _ _ dst HK Hd1).
      - simpl. by rewrite upd_lookup_eq.
      - destruct H2 as (_ & _ & _ & Hi). intros x Hx. by rewrite (Hi x Hx). }
    match type of H2 with
    | only_initializes _ ?w3 =>
        destruct (IHf dst w3 Hc2) as [[w4 r4] Hr]; [simpl in *; lia|]
    end.
    simpl in Hr. rewrite Hr.
    destruct r4 as [x|]; [done|].
    apply initialize_dependent_only in Hr.
    apply IH; [done| |].
    + by apply (only_initializes_closed K _ _ Hr).
    + pose proof (only_initializes_pending K _ _ Hr). simpl in *. lia.
  - apply IH; [done|done|lia].
Qed.




(** The traversal that visits the successors in the order of [dict_keys]
    is the traversal in that order of iteration. *)
Lemma initialize_dependent_key_order fuel self w0 w :
  (∀ u, links_to (units w !!! u) = links_to (units w0 !!! u)) →
  Unit.initialize_dependent fuel self w
  = Unit.initialize_dependent_in
      (λ u, dict_keys (links_to (units w0 !!! u))) fuel self w.
Proof.
  revert self w. induction fuel as [|fuel IHf]; intros self w Hl; [done|].
  simpl. rewrite Hl.
  generalize (dict_keys (links_to (units w0 !!! self))). intros dsts.
  revert w Hl. induction dsts as [|dst rest IH]; intros w Hl; simpl; [done|].
  destruct (is_initialized (units w !!! dst)) eqn:Hd; [by apply IH|].
  destruct (Unit.call_open_gate dst self (units w)) as [opened st1] eqn:Hg.
  assert (Hl1 : ∀ u, links_to (units (set_units st1 w) !!! u)
                     = links_to (units w0 !!! u)).
  { intros u. simpl. rewrite <-Hl.
    by destruct (gate_keeps_fields _ _ _ _ _ u Hg) as (_ & -> & _). }
  destruct opened; simpl; [|by apply IH].
  destruct (initialize (st1 !!! dst) (env w)) as [e1 [x|]] eqn:Hini; [done|].
  assert (Hd1 : is_initialized (units (set_units st1 w) !!! dst) = false).
  { simpl. by destruct (gate_keeps_fields _ _ _ _ _ dst Hg) as (_ & _ & -> & _). }
  pose proof (only_initializes_mark dst e1 _ Hd1) as (_ & _ & Hl2 & _).
  simpl in Hl2.
  rewrite <-IHf.
  2:{ intros u. rewrite <-Hl1. apply Hl2. }
  destruct (Unit.initialize_dependent fuel dst _) as [[w4 [x|]]|] eqn:Hr;
    [done| |done].
  apply IH. intros u.
  apply initialize_dependent_only in Hr as (_ & _ & Hl4 & _).
  rewrite Hl4. rewrite <-Hl1. apply Hl2.
Qed.


End traversal_facts.

(** A [Repeater] with a predecessor whose flag is false: open, and the
    flag stays false. *)
Lemma repeater_gate_always_open_witness :
  Unit.call_open_gate 3 1 Examples.repeater = (true, Examples.repeater)
  ∧ links_from (Examples.repeater !!! 3) !! 1 = Some false.
Proof.
  split.
  - apply (repeater_gate_always_open 3 1 Examples.repeater).
    vm_compute; reflexivity.
  - vm_compute; reflexivity.
Defined.

(** Two true cells decide like a zero and [None]. *)
Lemma gate_condition_is_xor_witness :
  gate_condition (PyFunc (λ n : nat, PyBool (n =? 0))) (PyInt 1) 0
  = gate_condition (PyInt 0) PyNone 0.
Proof.
  apply (gate_condition_is_xor
           (PyFunc (λ n : nat, PyBool (n =? 0))) (PyInt 1) 0);
    vm_compute; reflexivity.
Defined.

(** Unit [2] skips: its trigger only calls [run_dependent], which hands
    the pool the task of unit [3]. *)
Lemma skip_still_notifies_witness :
  trace (fst (Unit.check_gate_and_run 2 1 Examples.skipper)) = [EvRunDependent 2]
  ∧ ∃ submitted,
      tasks (fst (Unit.check_gate_and_run 2 1 Examples.skipper)) = submitted
      ∧ (3, 2) ∈ submitted.
Proof.
  destruct (skip_still_notifies 2 1 Examples.skipper (units Examples.skipper))
    as (_ & Ht & _ & _ & submitted & Hp & _ & Hin).
  - vm_compute; reflexivity.
  - vm_compute; reflexivity.
  - split; [exact Ht|]. exists submitted. split; [exact Hp|].
    apply Hin. split; [reflexivity|]. split.
    + exists false. vm_compute; reflexivity.
    + vm_compute; reflexivity.
Defined.

(** Unit [2] is running: the trigger leaves no trace and no task. *)
Lemma overlapping_trigger_is_dropped_witness :
  trace (fst (Unit.check_gate_and_run 2 1 Examples.busy)) = []
  ∧ pool_ (fst (Unit.check_gate_and_run 2 1 Examples.busy)) = None.
Proof.
  destruct (overlapping_trigger_is_dropped 2 1 Examples.busy (units Examples.busy))
    as (_ & Ht & Hp & _).
  - vm_compute; reflexivity.
  - vm_compute; reflexivity.
  - vm_compute; reflexivity.
  - split; [exact Ht|exact Hp].
Defined.

(** [initialize()] of unit [2] raises: the exception comes out, the lock
    is free, the unit is not initialized, nothing was handed to the pool. *)
Lemma exception_releases_lock_and_stops_witness :
  snd (Unit.check_gate_and_run 2 1 Examples.failing)
  = Some (UserError "no buffer")
  ∧ run_lock_ (units (fst (Unit.check_gate_and_run 2 1 Examples.failing)) !!! 2)
    = false
  ∧ is_initialized (units (fst (Unit.check_gate_and_run 2 1 Examples.failing)) !!! 2)
    = false
  ∧ pool_ (fst (Unit.check_gate_and_run 2 1 Examples.failing)) = None.
Proof.
  destruct (exception_releases_lock_and_stops 2 1 Examples.failing
              (units Examples.failing)) as (Hl & Hini & _).
  - vm_compute; reflexivity.
  - vm_compute; reflexivity.
  - vm_compute; reflexivity.
  - destruct (Hini 1 (UserError "no buffer")) as (Hr & Hi & _ & Hp).
    + vm_compute; reflexivity.
    + vm_compute; reflexivity.
    + split; [exact Hr|]. split; [exact Hl|]. split; [exact Hi|exact Hp].
Defined.

(** The join [1 → 3], [2 → 3] is bidirectional, [unlink_from_all] raises
    nothing on it, and unlinking the edge [3 → 1], which is not there,
    changes nothing. *)
Lemma links_stay_bidirectional_witness :
  bidirectional Examples.join
  ∧ snd (Unit.unlink_from_all 3 Examples.join) = None
  ∧ Unit.unlink_from 1 3 Examples.join = Examples.join.
Proof.
  destruct (@links_stay_bidirectional nat) as [Hbuilt Hnoop].
  destruct (Hbuilt Examples.join) as [Hbi Hall].
  - apply built_link_from, built_link_from, built_fresh.
    intros x. split; vm_compute; reflexivity.
  - split; [exact Hbi|]. split; [apply Hall|].
    apply Hnoop; vm_compute; reflexivity.
Defined.


(** * Further properties of the gate *)

Section more_gate_facts.
Context {Env : Type}.
Implicit Types (st : gmap nat (unit_obj Env)) (d : gmap nat bool).

Lemma notify_app self (l1 l2 : list nat) st :
  notify self (l1 ++ l2) st
  = (fst (notify self l1 st) ++ fst (notify self l2 (snd (notify self l1 st))),
     snd (notify self l2 (snd (notify self l1 st)))).
Proof.
  revert st. induction l1 as [|src l1 IH]; intros st; simpl.
  - by destruct (notify self l2 st).
  - destruct (Unit.open_gate self src st) as [b st1]. rewrite IH.
    destruct (notify self l1 st1) as [bs st2]. simpl.
    by destruct (notify self l2 st2).
Qed.

Lemma notify_permutation_round self (srcs : list nat) st :
  links_from (st !!! self) ≠ ∅ →
  (∀ k v, links_from (st !!! self) !! k = Some v → v = false) →
  srcs ≡ₚ dict_keys (links_from (st !!! self)) →
  fst (notify self srcs st)
  = replicate (size (links_from (st !!! self)) - 1) false ++ [true]
  ∧ links_from (snd (notify self srcs st) !!! self) = links_from (st !!! self).
Proof.
  intros Hne Hfalse Hperm.
  assert (Hlen : length srcs = size (links_from (st !!! self)))
    by (by rewrite Hperm, length_dict_keys).
  destruct (notify_round self srcs st) as [Hres Hfin].
  - intros ->. simpl in Hlen. symmetry in Hlen.
    by apply map_size_empty_iff in Hlen.
  - rewrite Hperm. apply NoDup_dict_keys.
  - intros k Hk. rewrite Hperm in Hk. by apply elem_of_dict_keys.
  - intros k v Hk. split.
    + intros _. rewrite Hperm. apply elem_of_dict_keys. by rewrite Hk.
    + intros _. by apply (Hfalse k).
  - rewrite Hres, Hfin, Hlen. split; [done|].
    apply map_eq. intros k. rewrite lookup_fmap.
    destruct (links_from (st !!! self) !! k) as [v|] eqn:Hk; [|done].
    simpl. f_equal. symmetry. by apply (Hfalse k).
Qed.

(** X1. As long as one predecessor whose flag is false keeps silent, no
    notification opens the gate: not a repeated one, not one from a unit
    that is no predecessor, whatever the other flags are; and that flag
    is still false at the end. *)
Theorem gate_waits_for_silent_predecessor (self : nat) (srcs : list nat) st k0 :
  links_from (st !!! self) !! k0 = Some false →
  k0 ∉ srcs →
  Forall (λ b, b = false) (fst (notify self srcs st))
  ∧ links_from (snd (notify self srcs st) !!! self) !! k0 = Some false.
Proof. apply notify_closed. Qed.

(** X2. A gate with predecessors is never left with every flag set: after
    any call of [Unit.open_gate], whatever it answers, some predecessor's
    flag is false, so the next opening needs a notification again. *)
Theorem open_gate_rearms (self src : nat) st :
  links_from (st !!! self) ≠ ∅ →
  ∃ k, links_from (snd (Unit.open_gate self src st) !!! self) !! k = Some false.
Proof.
  intros Hne.
  destruct (open_gate_nonempty self src st Hne) as (st' & -> & Hself & _).
  simpl. rewrite Hself. simpl.
  destruct (all (dict_values (mark src (links_from (st !!! self))))) eqn:Hall.
  - pose proof (mark_nonempty src _ Hne) as Hm.
    apply map_choose in Hm as (k & v & Hk). exists k.
    by rewrite lookup_fmap, Hk.
  - destruct (decide (map_Forall (λ _ v, v = true)
                        (mark src (links_from (st !!! self))))) as [Hf|Hf].
    + rewrite map_Forall_lookup in Hf. apply all_dict_values in Hf. congruence.
    + apply map_not_Forall in Hf; [|apply _].
      destruct Hf as (k & v & Hk & Hv). exists k. by destruct v.
Qed.

(** X3. Round after round: from flags that are all false, when the
    predecessors notify in rounds, each round a permutation of them, the
    gate opens exactly at the last notification of each round, and the
    flags are all false again at the end. *)
Theorem gate_opens_once_per_round (self : nat) (rounds : list (list nat)) st :
  links_from (st !!! self) ≠ ∅ →
  (∀ k v, links_from (st !!! self) !! k = Some v → v = false) →
  Forall (λ round, round ≡ₚ dict_keys (links_from (st !!! self))) rounds →
  fst (notify self (concat rounds) st)
  = concat ((λ _, replicate (size (links_from (st !!! self)) - 1) false ++ [true])
              <$> rounds)
  ∧ links_from (snd (notify self (concat rounds) st) !!! self)
    = links_from (st !!! self).
Proof.
  intros Hne Hfalse Hrounds. revert st Hne Hfalse Hrounds.
  induction rounds as [|round rest IH]; intros st Hne Hfalse Hrounds; [done|].
  apply Forall_cons in Hrounds as [Hround Hrest].
  destruct (notify_permutation_round self round st Hne Hfalse Hround)
    as [Hres Hfin].
  simpl. rewrite notify_app. simpl. rewrite Hres.
  destruct (IH (snd (notify self round st))) as [Hres' Hfin'].
  - by rewrite Hfin.
  - by rewrite Hfin.
  - by rewrite Hfin.
  - rewrite Hres', Hfin', !Hfin. done.
Qed.

End more_gate_facts.

(** On the join [1 → 3], [2 → 3]: while [2] is silent, [1] notifying
    three times and a stranger once get only [false]. *)
Lemma gate_waits_for_silent_predecessor_witness :
  Forall (λ b, b = false) (fst (notify 3 [1; 1; 7; 1] Examples.join)).
Proof.
  apply (gate_waits_for_silent_predecessor 3 [1; 1; 7; 1] Examples.join 2).
  - vm_compute; reflexivity.
  - by compute_done.
Defined.

(** On the join: after the first notification some flag is false. *)
Lemma open_gate_rearms_witness :
  ∃ k, links_from (snd (Unit.open_gate 3 1 Examples.join) !!! 3) !! k = Some false.
Proof.
  apply (open_gate_rearms 3 1 Examples.join). vm_compute. discriminate.
Defined.

(** On the join: the rounds [2; 1] and [1; 2] open the gate twice. *)
Lemma gate_opens_once_per_round_witness :
  fst (notify 3 [2; 1; 1; 2] Examples.join) = [false; true; false; true].
Proof.
  apply (gate_opens_once_per_round 3 [[2; 1]; [1; 2]] Examples.join).
  - vm_compute. discriminate.
  - apply map_Forall_lookup. by compute_done.
  - repeat constructor; by compute_done.
Defined.

(** * Further properties of the dispatch *)

Section more_dispatch_facts.
Context {Env : Type}.
Implicit Types (st : gmap nat (unit_obj Env)) (w : world Env).

(** X4. The gate has priority over everything else in [check_gate_and_run]:
    while the flag of some other predecessor [k0] is false, a trigger of
    a [Unit] by [src] records the arrival of [src] and stops there.  No
    body is called, no successor is notified and the outer state is not
    touched, whatever the skip cells hold and whether the lock is held or
    not. *)
Theorem early_trigger_only_records_arrival (self src k0 : nat) w :
  cls (units w !!! self) = ClsUnit →
  links_from (units w !!! self) !! k0 = Some false →
  k0 ≠ src →
  snd (Unit.check_gate_and_run self src w) = None
  ∧ trace (fst (Unit.check_gate_and_run self src w)) = trace w
  ∧ pool_ (fst (Unit.check_gate_and_run self src w)) = pool_ w
  ∧ env (fst (Unit.check_gate_and_run self src w)) = env w
  ∧ units (fst (Unit.check_gate_and_run self src w)) !!! self
    = set_links_from (mark src (links_from (units w !!! self))) (units w !!! self)
  ∧ ∀ x, x ≠ self →
      units (fst (Unit.check_gate_and_run self src w)) !!! x = units w !!! x.
Proof.
  intros Hcls Hk0 Hne.
  assert (Hd : links_from (units w !!! self) ≠ ∅).
  { intros He. by rewrite He, lookup_empty in Hk0. }
  destruct (open_gate_nonempty self src (units w) Hd) as (st' & Hg & Hself & Hother).
  assert (Hm : mark src (links_from (units w !!! self)) !! k0 = Some false).
  { rewrite mark_lookup. by rewrite decide_False. }
  rewrite (not_all_dict_values _ _ Hm) in Hg, Hself.
  unfold Unit.check_gate_and_run, Unit.call_open_gate.
  rewrite Hcls, Hg. simpl. done.
Qed.

(** The tasks of the successors that are not blocked on the outer state
    [e]: one for each such key of [d], and no other. *)
Lemma unblocked_tasks_spec (self : nat) st (e : Env) (d : gmap nat bool) :
  NoDup ((λ dst, (dst, self)) <$>
           filter (λ dst,
                     xorb (truthy (callvle (gate_block (st !!! dst)) e))
                          (truthy (callvle (gate_block_not (st !!! dst)) e))
                     = false)
                  (dict_keys d))
  ∧ ∀ dst src,
      (dst, src) ∈ ((λ dst, (dst, self)) <$>
                      filter (λ dst,
                                xorb (truthy (callvle (gate_block (st !!! dst)) e))
                                     (truthy (callvle (gate_block_not (st !!! dst)) e))
                                = false)
                             (dict_keys d)) ↔
      src = self
      ∧ is_Some (d !! dst)
      ∧ xorb (truthy (callvle (gate_block (st !!! dst)) e))
             (truthy (callvle (gate_block_not (st !!! dst)) e))
        = false.
Proof.
  split.
  - apply NoDup_fmap_2; [by intros ?? [=]|].
    apply NoDup_filter, NoDup_dict_keys.
  - intros dst src. rewrite list_elem_of_fmap. split.
    + intros (x & [= -> ->] & Hin).
      apply list_elem_of_filter in Hin as [Hc Hin].
      apply elem_of_dict_keys in Hin. done.
    + intros (-> & Hin & Hc). exists dst. split; [done|].
      apply list_elem_of_filter. split; [done|].
      by apply elem_of_dict_keys.
Qed.

(** X5. A trigger that goes all the way: the gate lets it through, it is not
    skipped, the lock is free and no body raises.  Then [initialize()] is
    called first if and only if the unit was not initialized, [run()]
    next, on the outer state that [initialize()] left, and
    [run_dependent()] last; at the end the unit is initialized, the lock
    is free, and each successor that is not blocked on the outer state
    that [run()] left has its task in the pool: one task each, after
    those the pool held, in whatever order [links_to] is iterated. *)
Theorem trigger_runs_in_order (self src : nat) w st1 (e1 e2 : Env) :
  Unit.call_open_gate self src (units w) = (true, st1) →
  xorb (truthy (callvle (gate_skip (units w !!! self)) (env w)))
       (truthy (callvle (gate_skip_not (units w !!! self)) (env w))) = false →
  run_lock_ (units w !!! self) = false →
  (is_initialized (units w !!! self) = true ∧ e1 = env w)
  ∨ (is_initialized (units w !!! self) = false
     ∧ initialize (units w !!! self) (env w) = (e1, None)) →
  run (units w !!! self) e1 = (e2, None) →
  snd (Unit.check_gate_and_run self src w) = None
  ∧ trace (fst (Unit.check_gate_and_run self src w))
    = trace w
      ++ (if is_initialized (units w !!! self) then []
          else [EvInitialize self; EvWarning self])
      ++ [EvRun self; EvRunDependent self]
  ∧ env (fst (Unit.check_gate_and_run self src w)) = e2
  ∧ is_initialized (units (fst (Unit.check_gate_and_run self src w)) !!! self)
    = true
  ∧ run_lock_ (units (fst (Unit.check_gate_and_run self src w)) !!! self) = false
  ∧ ∃ submitted,
      tasks (fst (Unit.check_gate_and_run self src w)) = tasks w ++ submitted
      ∧ NoDup submitted
      ∧ ∀ dst src',
          (dst, src') ∈ submitted ↔
          src' = self
          ∧ is_Some (links_to (units w !!! self) !! dst)
          ∧ xorb (truthy (callvle (gate_block (units w !!! dst)) e2))
                 (truthy (callvle (gate_block_not (units w !!! dst)) e2))
            = false.
Proof.
  intros Hgate Hskip Hlock Hinit Hrun.
  destruct (gate_keeps_fields _ _ _ _ _ self Hgate)
    as (_ & Hto & Hi & Hl & _ & _ & Hs & Hsn & Hini & Hbody).
  unfold Unit.check_gate_and_run. rewrite Hgate. simpl.
  rewrite Hs, Hsn, gate_condition_xorb, Hskip, Hl, Hlock. simpl.
  unfold Unit.initialize_and_run. simpl.
  rewrite !upd_lookup_eq. simpl. rewrite Hi, Hini.
  assert (Hblock : ∀ (st2 : gmap nat (unit_obj Env)),
    (∀ x, gate_block (st2 !!! x) = gate_block (units w !!! x)
          ∧ gate_block_not (st2 !!! x) = gate_block_not (units w !!! x)) →
    filter (λ dst, gate_condition (gate_block (st2 !!! dst))
                     (gate_block_not (st2 !!! dst)) e2 = false)
           (dict_keys (links_to (units w !!! self)))
    = filter (λ dst,
                xorb (truthy (callvle (gate_block (units w !!! dst)) e2))
                     (truthy (callvle (gate_block_not (units w !!! dst)) e2))
                = false)
             (dict_keys (links_to (units w !!! self)))).
  { intros st2 Hst2. apply list_filter_iff. intros dst.
    destruct (Hst2 dst) as [-> ->]. by rewrite gate_condition_xorb. }
  assert (Hfields : ∀ f : unit_obj Env → unit_obj Env,
    (∀ u, gate_block (f u) = gate_block u
          ∧ gate_block_not (f u) = gate_block_not u) →
    ∀ (st2 : gmap nat (unit_obj Env)) x,
      gate_block (upd self f st2 !!! x) = gate_block (st2 !!! x)
      ∧ gate_block_not (upd self f st2 !!! x) = gate_block_not (st2 !!! x)).
  { intros f Hf st2 x. destruct (decide (x = self)) as [->|Hx].
    - rewrite upd_lookup_eq. apply Hf.
    - by rewrite upd_lookup_ne. }
  assert (Hst1 : ∀ x, gate_block (st1 !!! x) = gate_block (units w !!! x)
                      ∧ gate_block_not (st1 !!! x) = gate_block_not (units w !!! x)).
  { intros x.
    by destruct (gate_keeps_fields _ _ _ _ _ x Hgate) as (_ & _ & _ & _ & -> & -> & _). }
  destruct Hinit as [[Hinitd ->]|[Hinitd Hcall]]; rewrite Hinitd; simpl.
  - rewrite upd_lookup_eq. simpl. rewrite Hbody, Hrun. simpl.
    match goal with
    | |- context [Unit.run_dependent self ?w0] =>
        destruct (run_dependent_spec self w0) as (Hu & He & Ht & Hp)
    end.
    rewrite Hu, He, Ht, Hp. simpl. rewrite !upd_lookup_eq. simpl.
    rewrite Hi, Hinitd, Hto.
    split; [done|]. split; [rewrite <-!app_assoc; reflexivity|]. split; [done|].
    split; [done|]. split; [done|].
    eexists. split; [unfold tasks at 1; simpl; fold (tasks w); reflexivity|].
    rewrite Hblock; [apply unblocked_tasks_spec|]. intros x.
    destruct (Hfields (set_run_lock_ false) ltac:(done)
                (upd self (set_run_lock_ true) st1) x) as [-> ->].
    destruct (Hfields (set_run_lock_ true) ltac:(done) st1 x) as [-> ->].
    apply Hst1.
  - rewrite Hcall. simpl. rewrite !upd_lookup_eq. simpl.
    rewrite Hbody, Hrun. simpl.
    match goal with
    | |- context [Unit.run_dependent self ?w0] =>
        destruct (run_dependent_spec self w0) as (Hu & He & Ht & Hp)
    end.
    rewrite Hu, He, Ht, Hp. simpl. rewrite !upd_lookup_eq. simpl. rewrite Hto.
    split; [done|]. split; [rewrite <-!app_assoc; reflexivity|]. split; [done|].
    split; [done|]. split; [done|].
    eexists. split; [unfold tasks at 1; simpl; fold (tasks w); reflexivity|].
    rewrite Hblock; [apply unblocked_tasks_spec|]. intros x.
    destruct (Hfields (set_run_lock_ false) ltac:(done)
                (upd self (set_is_initialized true)
                   (upd self (set_run_lock_ true) st1)) x) as [-> ->].
    destruct (Hfields (set_is_initialized true) ltac:(done)
                (upd self (set_run_lock_ true) st1) x) as [-> ->].
    destruct (Hfields (set_run_lock_ true) ltac:(done) st1 x) as [-> ->].
    apply Hst1.
Qed.

(** X6. [run_dependent] builds the pool only when it has a task for it.
    The tasks it submits are one for each successor that is not blocked,
    in whatever order [links_to] is iterated; when there is none, [Unit.pool_] is
    what it was; else the pool holds the earlier tasks, in their order,
    followed by the new ones. *)
Theorem run_dependent_builds_pool_on_demand (self : nat) w :
  ∃ submitted,
    NoDup submitted
    ∧ (∀ dst src,
         (dst, src) ∈ submitted ↔
         src = self
         ∧ is_Some (links_to (units w !!! self) !! dst)
         ∧ xorb (truthy (callvle (gate_block (units w !!! dst)) (env w)))
                (truthy (callvle (gate_block_not (units w !!! dst)) (env w)))
           = false)
    ∧ pool_ (Unit.run_dependent self w)
      = match submitted with
        | [] => pool_ w
        | _ :: _ => Some (tasks w ++ submitted)
        end.
Proof.
  exists ((λ dst, (dst, self)) <$>
            filter (λ dst,
                      xorb (truthy (callvle (gate_block (units w !!! dst)) (env w)))
                           (truthy (callvle (gate_block_not (units w !!! dst)) (env w)))
                      = false)
                   (dict_keys (links_to (units w !!! self)))).
  destruct (unblocked_tasks_spec self (units w) (env w)
              (links_to (units w !!! self))) as [Hnd Hin].
  split; [exact Hnd|]. split; [exact Hin|].
  unfold Unit.run_dependent.
  destruct (run_dependent_loop self (dict_keys (links_to (units w !!! self)))
              w (log (EvRunDependent self) w) eq_refl eq_refl)
    as (_ & _ & _ & H4 & H5).
  rewrite H5, H4. clear H4 H5.
  assert (Hf : filter (λ dst, gate_condition (gate_block (units w !!! dst))
                         (gate_block_not (units w !!! dst)) (env w) = false)
                      (dict_keys (links_to (units w !!! self)))
               = filter (λ dst,
                   xorb (truthy (callvle (gate_block (units w !!! dst)) (env w)))
                        (truthy (callvle (gate_block_not (units w !!! dst)) (env w)))
                   = false)
                 (dict_keys (links_to (units w !!! self)))).
  { apply list_filter_iff. intros dst. by rewrite gate_condition_xorb. }
  rewrite Hf.
  destruct (filter (λ dst,
                      xorb (truthy (callvle (gate_block (units w !!! dst)) (env w)))
                           (truthy (callvle (gate_block_not (units w !!! dst)) (env w)))
                      = false)
                   (dict_keys (links_to (units w !!! self)))) as [|d ds];
    reflexivity.
Qed.

End more_dispatch_facts.

(** On the join: the trigger of [3] by [1], with [2] silent. *)
Lemma early_trigger_only_records_arrival_witness :
  snd (Unit.check_gate_and_run 3 1 MoreExamples.join_world) = None
  ∧ trace (fst (Unit.check_gate_and_run 3 1 MoreExamples.join_world)) = []
  ∧ links_from (units (fst (Unit.check_gate_and_run 3 1 MoreExamples.join_world))
                !!! 3) !! 1 = Some true.
Proof.
  destruct (early_trigger_only_records_arrival 3 1 2 MoreExamples.join_world)
    as (Hr & Ht & _ & _ & Hu & _).
  - vm_compute; reflexivity.
  - vm_compute; reflexivity.
  - lia.
  - split; [exact Hr|]. split; [exact Ht|]. rewrite Hu. vm_compute; reflexivity.
Defined.

(** Unit [2] of the worker: [initialize()] makes the counter ten, [run()]
    twenty, and unit [3], no longer blocked then, gets its task. *)
Lemma trigger_runs_in_order_witness :
  trace (fst (Unit.check_gate_and_run 2 1 MoreExamples.worker))
  = [EvInitialize 2; EvWarning 2; EvRun 2; EvRunDependent 2]
  ∧ env (fst (Unit.check_gate_and_run 2 1 MoreExamples.worker)) = 20
  ∧ ∃ submitted,
      tasks (fst (Unit.check_gate_and_run 2 1 MoreExamples.worker)) = submitted
      ∧ (3, 2) ∈ submitted.
Proof.
  destruct (trigger_runs_in_order 2 1 MoreExamples.worker
              (units MoreExamples.worker) 10 20)
    as (_ & Ht & He & _ & _ & submitted & Hp & _ & Hin).
  - vm_compute; reflexivity.
  - vm_compute; reflexivity.
  - vm_compute; reflexivity.
  - right. split; vm_compute; reflexivity.
  - vm_compute; reflexivity.
  - split; [exact Ht|]. split; [exact He|].
    exists submitted. split; [exact Hp|].
    apply Hin. split; [reflexivity|]. split.
    + exists false. vm_compute; reflexivity.
    + vm_compute; reflexivity.
Defined.

(** * Further properties of the link operations *)

Section more_link_facts.
Context {Env : Type}.
Implicit Types (st : gmap nat (unit_obj Env)).

(** [u'] is [u] but for its two dictionaries of links. *)
Lemma links_only_refl (u : unit_obj Env) :
  u = set_links_to (links_to u) (set_links_from (links_from u) u).
Proof. by destruct u. Qed.

Lemma links_only_trans (u u' u'' : unit_obj Env) :
  u' = set_links_to (links_to u') (set_links_from (links_from u') u) →
  u'' = set_links_to (links_to u'') (set_links_from (links_from u'') u') →
  u'' = set_links_to (links_to u'') (set_links_from (links_from u'') u).
Proof. intros -> ->. done. Qed.

Lemma links_only_upd x (f : unit_obj Env → unit_obj Env) st y :
  (∀ u, f u = set_links_to (links_to (f u)) (set_links_from (links_from (f u)) u)) →
  upd x f st !!! y
  = set_links_to (links_to (upd x f st !!! y))
      (set_links_from (links_from (upd x f st !!! y)) (st !!! y)).
Proof.
  intros Hf. destruct (decide (y = x)) as [->|Hy].
  - rewrite upd_lookup_eq. apply Hf.
  - rewrite upd_lookup_ne by done. apply links_only_refl.
Qed.

Lemma link_from_links_only self src st y :
  Unit.link_from self src st !!! y
  = set_links_to (links_to (Unit.link_from self src st !!! y))
      (set_links_from (links_from (Unit.link_from self src st !!! y)) (st !!! y)).
Proof.
  unfold Unit.link_from.
  eapply links_only_trans; apply links_only_upd; intros u; by destruct u.
Qed.

Lemma del_links_to_links_only owner key st y :
  fst (Unit.del_links_to owner key st) !!! y
  = set_links_to (links_to (fst (Unit.del_links_to owner key st) !!! y))
      (set_links_from (links_from (fst (Unit.del_links_to owner key st) !!! y))
                      (st !!! y)).
Proof.
  unfold Unit.del_links_to. destruct (links_to (st !!! owner) !! key); simpl.
  - apply links_only_upd. intros u. by destruct u.
  - apply links_only_refl.
Qed.

Lemma del_links_from_links_only owner key st y :
  fst (Unit.del_links_from owner key st) !!! y
  = set_links_to (links_to (fst (Unit.del_links_from owner key st) !!! y))
      (set_links_from (links_from (fst (Unit.del_links_from owner key st) !!! y))
                      (st !!! y)).
Proof.
  unfold Unit.del_links_from. destruct (links_from (st !!! owner) !! key); simpl.
  - apply links_only_upd. intros u. by destruct u.
  - apply links_only_refl.
Qed.

Lemma unlink_from_links_only self src st y :
  Unit.unlink_from self src st !!! y
  = set_links_to (links_to (Unit.unlink_from self src st !!! y))
      (set_links_from (links_from (Unit.unlink_from self src st !!! y)) (st !!! y)).
Proof.
  unfold Unit.unlink_from.
  set (st1 := match links_to (st !!! src) !! self with
              | Some _ => fst (Unit.del_links_to src self st)
              | None => st
              end).
  assert (H1 : st1 !!! y
               = set_links_to (links_to (st1 !!! y))
                   (set_links_from (links_from (st1 !!! y)) (st !!! y))).
  { unfold st1. destruct (links_to (st !!! src) !! self).
    - apply del_links_to_links_only.
    - apply links_only_refl. }
  apply (links_only_trans _ _ _ H1).
  destruct (links_from (st1 !!! self) !! src).
  - apply del_links_from_links_only.
  - apply links_only_refl.
Qed.

(** X7. [unlink_from] undoes [link_from]: linking an edge that neither side
    had and unlinking it again leaves every unit as it was (a loop from a
    unit to itself included). *)
Theorem unlink_from_undoes_link_from (self src : nat) st :
  links_from (st !!! self) !! src = None →
  links_to (st !!! src) !! self = None →
  ∀ y, Unit.unlink_from self src (Unit.link_from self src st) !!! y = st !!! y.
Proof.
  intros Hfrom Hto y.
  assert (Hl : links_from (Unit.unlink_from self src (Unit.link_from self src st) !!! y)
               = links_from (st !!! y)).
  { rewrite unlink_from_links_from, link_from_links_from.
    case_decide; [|done]. subst. by rewrite delete_insert_eq, delete_id. }
  assert (Ht : links_to (Unit.unlink_from self src (Unit.link_from self src st) !!! y)
               = links_to (st !!! y)).
  { rewrite unlink_from_links_to, link_from_links_to.
    case_decide; [|done]. subst. by rewrite delete_insert_eq, delete_id. }
  pose proof (links_only_trans _ _ _ (link_from_links_only self src st y)
                (unlink_from_links_only self src (Unit.link_from self src st) y))
    as Hu.
  rewrite Hl, Ht in Hu. rewrite Hu. symmetry. apply links_only_refl.
Qed.

Lemma bidirectional_link_from self src st :
  bidirectional st → bidirectional (Unit.link_from self src st).
Proof.
  intros Hbi a b. rewrite link_from_links_to, link_from_links_from.
  destruct (decide (a = src)) as [->|Ha], (decide (b = self)) as [->|Hb];
    rewrite ?lookup_insert_eq, ?lookup_insert_ne by done;
    first [done | apply Hbi].
Qed.

(** X8. [link_from] puts the edge on both sides with a false flag, whatever
    was there: linking an edge again forgets an arrival that its flag
    recorded; and linking it twice in a row is linking it once. *)
Theorem link_from_resets_and_is_idempotent (self src : nat) st :
  links_from (Unit.link_from self src st !!! self) !! src = Some false
  ∧ links_to (Unit.link_from self src st !!! src) !! self = Some false
  ∧ ∀ y, Unit.link_from self src (Unit.link_from self src st) !!! y
         = Unit.link_from self src st !!! y.
Proof.
  split; [|split].
  - rewrite link_from_links_from, decide_True by done. apply lookup_insert_eq.
  - rewrite link_from_links_to, decide_True by done. apply lookup_insert_eq.
  - intros y.
    pose proof (links_only_trans _ _ _ (link_from_links_only self src st y)
                  (link_from_links_only self src (Unit.link_from self src st) y))
      as H2.
    assert (Hf : links_from (Unit.link_from self src (Unit.link_from self src st) !!! y)
                 = links_from (Unit.link_from self src st !!! y)).
    { rewrite !link_from_links_from. case_decide; [|done].
      by rewrite insert_insert_eq. }
    assert (Ht : links_to (Unit.link_from self src (Unit.link_from self src st) !!! y)
                 = links_to (Unit.link_from self src st !!! y)).
    { rewrite !link_from_links_to. case_decide; [|done].
      by rewrite insert_insert_eq. }
    rewrite Hf, Ht in H2. rewrite H2. symmetry. apply link_from_links_only.
Qed.

(** X9. [unlink_from] takes the edge from [src] to [self] out of both
    dictionaries, from whichever side has it (a missing side raises
    nothing), and leaves every other edge and its flag as they are. *)
Theorem unlink_from_removes_one_edge (self src : nat) st :
  links_to (Unit.unlink_from self src st !!! src) !! self = None
  ∧ links_from (Unit.unlink_from self src st !!! self) !! src = None
  ∧ (∀ y k, (y, k) ≠ (src, self) →
       links_to (Unit.unlink_from self src st !!! y) !! k
       = links_to (st !!! y) !! k)
  ∧ (∀ y k, (y, k) ≠ (self, src) →
       links_from (Unit.unlink_from self src st !!! y) !! k
       = links_from (st !!! y) !! k).
Proof.
  split; [|split; [|split]].
  - rewrite unlink_from_links_to, decide_True by done. apply lookup_delete_eq.
  - rewrite unlink_from_links_from, decide_True by done. apply lookup_delete_eq.
  - intros y k Hne. rewrite unlink_from_links_to. case_decide; [|done].
    subst. apply lookup_delete_ne. congruence.
  - intros y k Hne. rewrite unlink_from_links_from. case_decide; [|done].
    subst. apply lookup_delete_ne. congruence.
Qed.

(** X10. On a bidirectional store [unlink_from_all] raises nothing and cuts
    [self] out: [self] has no link left, no unit has [self] as a
    predecessor or as a successor, and every edge between other units
    keeps its place and its flag. *)
Theorem unlink_from_all_isolates (self : nat) st :
  bidirectional st →
  snd (Unit.unlink_from_all self st) = None
  ∧ links_from (fst (Unit.unlink_from_all self st) !!! self) = ∅
  ∧ links_to (fst (Unit.unlink_from_all self st) !!! self) = ∅
  ∧ (∀ y, links_from (fst (Unit.unlink_from_all self st) !!! y) !! self = None
          ∧ links_to (fst (Unit.unlink_from_all self st) !!! y) !! self = None)
  ∧ (∀ y k, y ≠ self → k ≠ self →
       links_from (fst (Unit.unlink_from_all self st) !!! y) !! k
       = links_from (st !!! y) !! k
       ∧ links_to (fst (Unit.unlink_from_all self st) !!! y) !! k
         = links_to (st !!! y) !! k).
Proof.
  intros Hbi.
  destruct (unlink_from_all_spec self st Hbi) as (st' & -> & Hto & Hfrom).
  simpl. split; [done|]. split; [|split; [|split]].
  - by rewrite Hfrom, decide_True.
  - by rewrite Hto, decide_True.
  - intros y. rewrite Hfrom, Hto.
    case_decide; by rewrite ?lookup_empty, ?lookup_delete_eq.
  - intros y k Hy Hk. rewrite Hfrom, Hto, !decide_False by done.
    by rewrite !lookup_delete_ne.
Qed.

Lemma for_each_del_links_to_raises self (ks : list nat) st k0 :
  k0 ∈ ks →
  links_to (st !!! k0) !! self = None →
  snd (Unit.for_each (λ src, Unit.del_links_to src self) ks st) = Some KeyError
  ∧ ∀ y, links_from (fst (Unit.for_each (λ src, Unit.del_links_to src self) ks st)
                     !!! y)
         = links_from (st !!! y).
Proof.
  revert st. induction ks as [|k rest IH]; intros st Hin Hk0; simpl.
  - by apply elem_of_nil in Hin.
  - destruct (Unit.del_links_to k self st) as [st1 r] eqn:Hd.
    unfold Unit.del_links_to in Hd.
    destruct (links_to (st !!! k) !! self) as [v|] eqn:Hk;
      injection Hd as <- <-; [|done].
    assert (Hne : k0 ≠ k) by (intros ->; congruence).
    apply elem_of_cons in Hin as [?|Hin]; [done|].
    destruct (IH (upd k (λ u, set_links_to (delete self (links_to u)) u) st) Hin)
      as [Hr Hl].
    { by rewrite upd_lookup_ne. }
    split; [done|]. intros y. rewrite Hl.
    destruct (decide (y = k)) as [->|Hy].
    + by rewrite upd_lookup_eq.
    + by rewrite upd_lookup_ne.
Qed.

(** X11. On a one-sided edge [unlink_from_all] fails: when [self] has the
    predecessor [src] but [src] does not have [self] as a successor, it
    raises [KeyError] and [self.links_from] is not cleared. *)
Theorem unlink_from_all_raises_on_one_sided_edge (self src : nat) st :
  is_Some (links_from (st !!! self) !! src) →
  links_to (st !!! src) !! self = None →
  snd (Unit.unlink_from_all self st) = Some KeyError
  ∧ links_from (fst (Unit.unlink_from_all self st) !!! self)
    = links_from (st !!! self).
Proof.
  intros Hfrom Hto. unfold Unit.unlink_from_all.
  destruct (for_each_del_links_to_raises self
              (dict_keys (links_from (st !!! self))) st src) as [Hr Hl].
  - by apply elem_of_dict_keys.
  - done.
  - destruct (Unit.for_each _ _ st) as [st1 r]. simpl in *. subst r.
    simpl. split; [done|apply Hl].
Qed.

End more_link_facts.

(** A fresh edge [5 → 3] on the join, linked and unlinked again. *)
Lemma unlink_from_undoes_link_from_witness :
  Unit.unlink_from 3 5 (Unit.link_from 3 5 Examples.join) !!! 3
  = Examples.join !!! 3.
Proof.
  apply (unlink_from_undoes_link_from 3 5 Examples.join);
    vm_compute; reflexivity.
Defined.

(** [unlink_from_all] of the join's unit [3]. *)
Lemma unlink_from_all_isolates_witness :
  snd (Unit.unlink_from_all 3 Examples.join) = None
  ∧ links_from (fst (Unit.unlink_from_all 3 Examples.join) !!! 3) = ∅.
Proof.
  destruct (unlink_from_all_isolates 3 Examples.join) as (Hr & Hf & _).
  - apply bidirectional_link_from, bidirectional_link_from.
    intros a b. vm_compute. split; by intros [? ?].
  - split; [exact Hr|exact Hf].
Defined.

(** Unit [3] lists [1] as a predecessor, unit [1] knows nothing of it. *)
Lemma unlink_from_all_raises_on_one_sided_edge_witness :
  snd (Unit.unlink_from_all 3 MoreExamples.one_sided) = Some KeyError.
Proof.
  destruct (unlink_from_all_raises_on_one_sided_edge 3 1 MoreExamples.one_sided)
    as [Hr _].
  - vm_compute. by eexists.
  - vm_compute; reflexivity.
  - exact Hr.
Defined.

(** * Further properties of the traversal *)

Section more_traversal_facts.
Context {Env : Type}.
Implicit Types (st : gmap nat (unit_obj Env)) (w : world Env).








End more_traversal_facts.


(** * Further properties of pickling and of names *)

Section more_pickle_facts.
Context {Env : Type}.
Implicit Types (state d : gmap string (pyval Env)) (h : heap Env).

Lemma getstate_items_raises (items : list (string * pyval Env)) state v :
  (EmptyString, v) ∈ items →
  snd (Pickleable.getstate_items items state) = Some IndexError.
Proof.
  revert state. induction items as [|[k v'] rest IH]; intros state Hin.
  - by apply elem_of_nil in Hin.
  - simpl. destruct (Pickleable.last_char k) as [c|] eqn:Hc; [|done].
    apply elem_of_cons in Hin as [[= <- <-]|Hin]; [done|].
    destruct (negb (Ascii.eqb c "_") && negb (callable v')); by apply IH.
Qed.

Lemma getstate_snd h :
  snd (Pickleable.__getstate__ h)
  = if decide (is_Some (__dict__ h !! EmptyString)) then Some IndexError
    else None.
Proof.
  case_decide as He.
  - destruct He as [v Hv]. unfold Pickleable.__getstate__.
    apply (getstate_items_raises _ _ v). by apply elem_of_map_to_list.
  - destruct (getstate_spec h) as (state & -> & _); [|done].
    by apply eq_None_not_Some.
Qed.

Lemma getstate_ok_lookup h state :
  Pickleable.__getstate__ h = (state, None) →
  __dict__ h !! EmptyString = None
  ∧ ∀ k, state !! k
         = (λ v, if transient k || callable v then PyNone else v)
             <$> __dict__ h !! k.
Proof.
  intros Hget.
  assert (Hne : __dict__ h !! EmptyString = None).
  { pose proof (getstate_snd h) as Hr.
    rewrite Hget in Hr. simpl in Hr. case_decide as He; [done|].
    by apply eq_None_not_Some. }
  destruct (getstate_spec h Hne) as (state0 & Heq & Hst).
  rewrite Hget in Heq. by injection Heq as <-.
Qed.

Lemma pickle_round_trip_lookup (self : nat) h state (l : list bool)
    (t : gmap nat Z) k :
  Pickleable.__getstate__ h = (state, None) →
  k ≠ "gate_lock_" → k ≠ "run_lock_" → k ≠ "is_initialized" →
  __dict__ (Unit.__setstate__ None self state (mk_heap ∅ l t)) !! k
  = (λ v, if transient k || callable v then PyNone else v) <$> __dict__ h !! k.
Proof.
  intros Hget H1 H2 H3. destruct (getstate_ok_lookup h state Hget) as [_ Hst].
  unfold Unit.__setstate__, Pickleable.__setstate__, Unit.init_unpickled,
    Unit.new_lock, Pickleable.init_unpickled. simpl.
  rewrite !lookup_insert_ne by done.
  rewrite (right_id_L ∅ (∪)). apply Hst.
Qed.

(** X13. [__getstate__] raises exactly when the object has an attribute whose
    name is the empty string, and what it raises is [IndexError]. *)
Theorem getstate_raises_iff_empty_name h :
  snd (Pickleable.__getstate__ h)
  = if decide (is_Some (__dict__ h !! EmptyString)) then Some IndexError
    else None.
Proof. apply getstate_snd. Qed.

(** X14. Pickling the pickled state again changes nothing: a state that
    [__getstate__] returned is what [__getstate__] returns on an object
    whose attributes are that state. *)
Theorem getstate_idempotent h state (l : list bool) (t : gmap nat Z) :
  Pickleable.__getstate__ h = (state, None) →
  Pickleable.__getstate__ (mk_heap state l t) = (state, None).
Proof.
  intros Hget. destruct (getstate_ok_lookup h state Hget) as [Hne Hst].
  destruct (getstate_spec (mk_heap state l t)) as (state' & -> & Hst').
  - simpl. by rewrite Hst, Hne.
  - f_equal. apply map_eq. intros k. rewrite Hst'. simpl. rewrite Hst.
    destruct (__dict__ h !! k) as [v|]; [|done]. simpl. f_equal.
    destruct (transient k); [done|]. simpl.
    by destruct (callable v) eqn:Hc; simpl; rewrite ?Hc.
Qed.

(** X15. Round trip of a unit through [__getstate__] and [__setstate__] into a
    new object (the base class having no [init_unpickled] of its own):
    apart from [gate_lock_], [run_lock_] and [is_initialized], which
    [init_unpickled] sets, the object has the attributes it had, with
    their values when these were kept and with [None] where the name
    ends with an underscore or the value was callable; and the timer of
    the unit is zero. *)
Theorem pickle_round_trip (self : nat) h state (l : list bool) (t : gmap nat Z) :
  Pickleable.__getstate__ h = (state, None) →
  (∀ k, k ≠ "gate_lock_" → k ≠ "run_lock_" → k ≠ "is_initialized" →
     __dict__ (Unit.__setstate__ None self state (mk_heap ∅ l t)) !! k
     = (λ v, if transient k || callable v then PyNone else v)
         <$> __dict__ h !! k)
  ∧ timers (Unit.__setstate__ None self state (mk_heap ∅ l t)) !! self
    = Some 0%Z.
Proof.
  intros Hget. split.
  - intros k. by apply pickle_round_trip_lookup.
  - unfold Unit.__setstate__, Pickleable.__setstate__, Unit.init_unpickled.
    simpl. apply lookup_insert_eq.
Qed.

(** X16. [set_name] takes strings only, and [name()] reads the name back,
    except that the empty string reads as the name of the class; the
    other attributes are not touched. *)
Theorem set_name_then_name (cls_name : string) (value : pyval Env) h :
  match value with
  | PyStr s =>
      ∃ h', UnitAttrs.set_name value h = Some h'
            ∧ UnitAttrs.name cls_name h'
              = Some (PyStr (if decide (s = EmptyString) then cls_name else s))
            ∧ ∀ k, k ≠ "individual_name" → __dict__ h' !! k = __dict__ h !! k
  | _ => UnitAttrs.set_name value h = None
  end.
Proof.
  destruct value as [| | |s| | |]; try done.
  eexists. split; [done|]. split.
  - unfold UnitAttrs.name. simpl. rewrite lookup_insert_eq. simpl.
    destruct s; done.
  - intros k Hk. simpl. by rewrite lookup_insert_ne.
Qed.

(** X17. The name of a unit survives pickling: after the round trip into a
    new object, [name()] answers what it answered before, as long as
    [individual_name] held no callable and [init_unpickled] of the base
    class, if the class has one, leaves [individual_name] as it finds
    it. *)
Theorem name_survives_pickling
    (Logger_init_unpickled :
       option (gmap string (pyval Env) → gmap string (pyval Env)))
    (cls_name : string) (self : nat) h state
    (l : list bool) (t : gmap nat Z) (v : pyval Env) :
  (∀ f d, Logger_init_unpickled = Some f →
          f d !! "individual_name" = d !! "individual_name") →
  Pickleable.__getstate__ h = (state, None) →
  __dict__ h !! "individual_name" = Some v →
  callable v = false →
  UnitAttrs.name cls_name
    (Unit.__setstate__ Logger_init_unpickled self state (mk_heap ∅ l t))
  = UnitAttrs.name cls_name h.
Proof.
  intros Hhook Hget Hv Hc.
  destruct (getstate_ok_lookup h state Hget) as [_ Hst].
  assert (Hk : __dict__ (Unit.__setstate__ Logger_init_unpickled self state
                           (mk_heap ∅ l t)) !! "individual_name"
               = Some v).
  { unfold Unit.__setstate__, Pickleable.__setstate__, Unit.init_unpickled,
      Unit.new_lock, Pickleable.init_unpickled.
    destruct Logger_init_unpickled as [f|]; simpl;
      rewrite !lookup_insert_ne by done;
      rewrite ?(Hhook f _ eq_refl), (right_id_L ∅ (∪)), Hst, Hv; simpl;
      rewrite Hc;
      replace (transient "individual_name") with false
        by (vm_compute; reflexivity);
      done. }
  unfold UnitAttrs.name. by rewrite Hk, Hv.
Qed.

End more_pickle_facts.

(** * The inclusion plan *)

Section plan_facts.
Implicit Types (files tokens : list (string * Z)).

Lemma record_loop_runs tokens files current (l0 : Z) :
  last files = Some (current, l0) →
  OpenCLUnit.record_loop tokens files
  = Some (files ++ OpenCLUnit.runs current tokens).
Proof.
  revert files current l0.
  induction tokens as [|[source lineno] rest IH]; intros files current l0 Hlast;
    simpl.
  - by rewrite app_nil_r.
  - rewrite Hlast. case_bool_decide as Hne.
    + erewrite IH; [|apply last_snoc]. by rewrite <-app_assoc.
    + by apply (IH _ _ l0).
Qed.

Lemma runs_adjacent prev tokens (l0 : Z) i a b :
  ((prev, l0) :: OpenCLUnit.runs prev tokens) !! i = Some a →
  ((prev, l0) :: OpenCLUnit.runs prev tokens) !! S i = Some b →
  a.1 ≠ b.1 ∧ (1 ≤ b.2)%Z.
Proof.
  revert prev l0 i a b.
  induction tokens as [|[source lineno] rest IH]; intros prev l0 i a b; simpl.
  - by destruct i.
  - case_bool_decide as Hne.
    + destruct i as [|i]; simpl.
      * intros [= <-] [= <-]. simpl. split; [done|].
        case_bool_decide; lia.
      * apply (IH source).
    + apply IH.
Qed.

(** X18. The recorded includes: the loop does not fail; the list starts with
    [('opencl', 0)]; then comes one entry for each run of tokens of one
    source, made from the first token of the run; so no two neighbours
    have the same source, and every line recorded after the first entry
    is at least one. *)
Theorem record_includes_runs tokens :
  OpenCLUnit.record_includes tokens
  = Some (("opencl", 0%Z) :: OpenCLUnit.runs "opencl" tokens)
  ∧ ∀ i a b,
      (("opencl", 0%Z) :: OpenCLUnit.runs "opencl" tokens) !! i = Some a →
      (("opencl", 0%Z) :: OpenCLUnit.runs "opencl" tokens) !! S i = Some b →
      a.1 ≠ b.1 ∧ (1 ≤ b.2)%Z.
Proof.
  split.
  - unfold OpenCLUnit.record_includes.
    by rewrite (record_loop_runs tokens [("opencl", 0%Z)] "opencl" 0%Z).
  - apply runs_adjacent.
Qed.

(** [flatten_plan] and [file_bottoms] after the entries [files], taken
    last to first. *)
Lemma plan_loop files :
  ∃ bottoms : gmap string Z,
    foldl OpenCLUnit.plan_step ([], ∅) (reverse files)
    = (OpenCLUnit.plan_of files, bottoms)
    ∧ ∀ f, f ≠ "opencl" →
        bottoms !! f = (λ l, (l - 1)%Z) <$> OpenCLUnit.next_line f files.
Proof.
  induction files as [|[f lineno] rest (bottoms & IH1 & IH2)]; simpl.
  - exists ∅. split; [done|]. intros f _. by rewrite lookup_empty.
  - rewrite reverse_cons, foldl_app, IH1. simpl.
    unfold OpenCLUnit.plan_step. simpl.
    case_bool_decide as Hf.
    + exists bottoms. split; [done|]. intros f' Hf'.
      rewrite bool_decide_false by congruence. by apply IH2.
    + eexists. split.
      * f_equal. f_equal. rewrite (IH2 f Hf).
        destruct (OpenCLUnit.next_line f rest) as [l'|]; simpl; [|done].
        by case_bool_decide.
      * intros f' Hf'. case_bool_decide as Heq.
        -- subst. by rewrite lookup_insert_eq.
        -- rewrite lookup_insert_ne by done. by apply IH2.
Qed.

(** X19. The baked plan is the plan written entry by entry over
    [files_list[1:-1]]: it names the files of these entries, [opencl]
    left out, in their order; with fewer than three entries in
    [files_list] it is empty. *)
Theorem bake_plan_entries files :
  OpenCLUnit.bake_plan files = OpenCLUnit.plan_of (OpenCLUnit.inner files)
  ∧ (OpenCLUnit.bake_plan files).*1
    = filter (λ f, f ≠ "opencl") (OpenCLUnit.inner files).*1
  ∧ (length files < 3 → OpenCLUnit.bake_plan files = []).
Proof.
  assert (H1 : OpenCLUnit.bake_plan files
               = OpenCLUnit.plan_of (OpenCLUnit.inner files)).
  { unfold OpenCLUnit.bake_plan.
    by destruct (plan_loop (OpenCLUnit.inner files)) as (bottoms & -> & _). }
  split; [done|]. split.
  - rewrite H1. clear H1.
    induction (OpenCLUnit.inner files) as [|[f l] rest IH]; [done|].
    simpl. case_bool_decide as Hf.
    + rewrite filter_cons_False by (by intros ?). apply IH.
    + rewrite filter_cons_True by done. rewrite fmap_cons. simpl. f_equal.
      apply IH.
  - intros Hlen. rewrite H1. unfold OpenCLUnit.inner.
    destruct files as [|a [|b [|c files]]]; simpl in *; try done. lia.
Qed.

End plan_facts.

(** * The options of the command line *)

Section opts_facts.
Context {Value : Type}.
Import GenerateFrontend.
Implicit Types (arg : action Value) (s : locals Value) (os : list string).

Lemma strip_dashes_inr (option r : string) :
  strip_dashes option = inr r →
  r = stripped option
  ∧ (∃ n, option = String.append (dashes n) r)
  ∧ ∃ c r', r = String c r' ∧ c ≠ "-"%char.
Proof.
  induction option as [|c rest IH]; simpl; [done|].
  destruct (Ascii.eqb c "-") eqn:Hc.
  - intros Hr. destruct (IH Hr) as (Hr' & [n Hn] & Hhead).
    split; [done|]. split; [|done].
    apply Ascii.eqb_eq in Hc as ->. exists (S n).
    change (String "-" rest = String "-" (String.append (dashes n) r)).
    by f_equal.
  - intros [= <-]. split; [done|]. split; [exists 0; reflexivity|].
    exists c, rest. split; [done|]. by apply Ascii.eqb_neq.
Qed.

Lemma strip_dashes_inl (option : string) e :
  strip_dashes option = inl e →
  e = RaisedIndexError ∧ ∃ n, option = dashes n.
Proof.
  induction option as [|c rest IH]; simpl.
  - intros [= <-]. split; [done|]. exists 0. reflexivity.
  - destruct (Ascii.eqb c "-") eqn:Hc; [|done].
    intros He. destruct (IH He) as (-> & [n Hn]). split; [done|].
    apply Ascii.eqb_eq in Hc as ->. exists (S n). simpl. by f_equal.
Qed.

Lemma strip_dashes_stripped (option : string) :
  stripped option ≠ EmptyString →
  strip_dashes option = inr (stripped option).
Proof.
  induction option as [|c rest IH]; simpl; [done|].
  by destruct (Ascii.eqb c "-").
Qed.

Lemma stripped_idemp (option : string) :
  stripped (stripped option) = stripped option.
Proof.
  induction option as [|c rest IH]; simpl; [done|].
  destruct (Ascii.eqb c "-") eqn:Hc; [done|]. simpl. by rewrite Hc.
Qed.

(** X20. Stripping the dashes: the loop removes the leading dashes, all of
    them and nothing else, and raises [IndexError] exactly on a string
    that is made of dashes only (the empty string among them). *)
Theorem strip_dashes_spec (option : string) :
  match strip_dashes option with
  | inr r =>
      (∃ n, option = String.append (dashes n) r)
      ∧ ∃ c r', r = String c r' ∧ c ≠ "-"%char
  | inl e => e = RaisedIndexError ∧ ∃ n, option = dashes n
  end.
Proof.
  destruct (strip_dashes option) as [e|r] eqn:Hs.
  - by apply strip_dashes_inl.
  - by destruct (strip_dashes_inr _ _ Hs) as (_ & ? & ?).
Qed.

(** X21. An action without option strings in first place makes
    [generate_opts] fail, whatever follows: with [NameError], the
    variable [option_strings] being unbound, unless stripping its [dest]
    already raised [IndexError]. *)
Theorem generate_opts_fails_on_leading_positional arg
    (rest : list (action Value)) :
  option_strings arg = [] →
  generate_opts (arg :: rest)
  = inl (match strip_dashes (dest arg) with
         | inl e => e
         | inr _ => RaisedNameError
         end).
Proof.
  intros Hpos. unfold generate_opts. simpl. unfold opts_step. rewrite Hpos.
  simpl. by destruct (strip_dashes (dest arg)).
Qed.

Lemma alias_loop_fails os (al : gmap string string) e :
  alias_loop os al = inl e → e = RaisedIndexError.
Proof.
  revert al. induction os as [os IH] using (induction_ltof1 _ (@length _)).
  unfold ltof in IH. intros al.
  destruct os as [|a [|b rest]]; simpl; [done| |].
  - destruct (strip_dashes a) eqn:Ha; [|by intros [= <-]].
    intros [= <-]. by apply strip_dashes_inl in Ha as [-> _].
  - destruct (strip_dashes a) eqn:Ha.
    { intros [= <-]. by apply strip_dashes_inl in Ha as [-> _]. }
    destruct (strip_dashes b) eqn:Hb.
    { intros [= <-]. by apply strip_dashes_inl in Hb as [-> _]. }
    destruct (alias_loop rest _) as [e'|[l al']] eqn:Hl; [|done].
    intros [= <-]. apply (IH rest) in Hl; [done|]. simpl. lia.
Qed.

Lemma alias_loop_odd os (al : gmap string string) :
  Nat.Odd (length os) → alias_loop os al = inl RaisedIndexError.
Proof.
  revert al. induction os as [os IH] using (induction_ltof1 _ (@length _)).
  unfold ltof in IH. intros al Hodd.
  destruct os as [|a [|b rest]]; simpl.
  - destruct Hodd as [n Hn]. simpl in Hn. lia.
  - destruct (strip_dashes a) eqn:Ha; [|done].
    by apply strip_dashes_inl in Ha as [-> _].
  - destruct (strip_dashes a) eqn:Ha.
    { by apply strip_dashes_inl in Ha as [-> _]. }
    destruct (strip_dashes b) eqn:Hb.
    { by apply strip_dashes_inl in Hb as [-> _]. }
    rewrite IH; [done|simpl; lia|].
    destruct Hodd as [n Hn]. simpl in Hn. exists (n - 1). lia.
Qed.

Lemma opts_loop_app (pre post : list (action Value)) s :
  opts_loop (pre ++ post) s
  = match opts_loop pre s with
    | inl e => inl e
    | inr s' => opts_loop post s'
    end.
Proof.
  revert s. induction pre as [|arg pre IH]; intros s; simpl; [done|].
  destruct (opts_step s arg); [done|apply IH].
Qed.

(** X22. An action with an odd number of option strings, three or more, makes
    [generate_opts] fail, wherever it stands: the loop over pairs of
    option strings reads past the end of the list. *)
Theorem generate_opts_fails_on_odd_option_strings
    (pre post : list (action Value)) arg :
  1 < length (option_strings arg) →
  Nat.Odd (length (option_strings arg)) →
  ∃ e, generate_opts (pre ++ arg :: post) = inl e.
Proof.
  intros Hlen Hodd. unfold generate_opts. rewrite opts_loop_app.
  destruct (opts_loop pre _) as [e|s]; [by exists e|].
  simpl. unfold opts_step.
  destruct (option_strings arg) as [|first others] eqn:Hos; [simpl in Hlen; lia|].
  destruct (strip_dashes (shown_option first others)); [by eexists|].
  apply Nat.ltb_lt in Hlen. rewrite Hlen.
  rewrite (alias_loop_odd _ _ Hodd). by eexists.
Qed.

Lemma opts_step_plain s arg :
  plain arg →
  option_strings arg ≠ [] ∨ settled s →
  ∃ s',
    opts_step s arg = inr s'
    ∧ settled s'
    ∧ string_arguments s'
      = string_arguments s
        ++ (if decide (kind arg = StoreAction) then [stripped (option_of arg)]
            else [])
    ∧ boolean_arguments s'
      = boolean_arguments s
        ++ (if decide (kind arg = StoreTrueAction)
            then [stripped (option_of arg)] else [])
    ∧ positional_opts s'
      = positional_opts s
        ++ (if decide (option_strings arg = []) then [dest arg] else [])
    ∧ alias s' = alias_of (alias s) arg
    ∧ choices_var s'
      = match choices arg with
        | Some c => <[option_of arg := c]> (choices_var s)
        | None => choices_var s
        end
    ∧ defaults s' = <[option_of arg := default arg]> (defaults s).
Proof.
  intros (Hlen & Hstr & Hdest) Hbound.
  unfold opts_step, option_of, alias_of.
  destruct (option_strings arg) as [|x [|y [|z rest]]] eqn:Hos;
    [| | |simpl in Hlen; lia].
  - (* no option strings *)
    destruct Hbound as [?|(os & Hvar & Hos')]; [done|].
    rewrite Hvar, (strip_dashes_stripped (dest arg)) by auto.
    assert (Hfields :
      (if decide (@nil string = []) then [dest arg] else []) = [dest arg])
      by (by rewrite decide_True).
    rewrite Hfields.
    destruct (1 <? length os) eqn:Hl.
    + destruct Hos' as [Hle|Hloop]; [apply Nat.ltb_lt in Hl; lia|].
      rewrite Hloop. eexists. split; [done|]. simpl.
      split; [by exists os; split; [done|right]|].
      destruct (kind arg); simpl; rewrite ?app_nil_r; repeat split; done.
    + eexists. split; [done|]. simpl.
      split; [exists os; split; [done|]; left; apply Nat.ltb_ge in Hl; lia|].
      destruct (kind arg); simpl; rewrite ?app_nil_r; repeat split; done.
  - (* one option string *)
    apply Forall_cons in Hstr as [Hx _]. simpl.
    rewrite (strip_dashes_stripped x) by done.
    eexists. split; [done|]. simpl.
    split; [exists [x]; split; [done|]; left; simpl; lia|].
    destruct (kind arg); simpl; rewrite ?app_nil_r; repeat split; done.
  - (* two option strings *)
    apply Forall_cons in Hstr as [Hx Hstr].
    apply Forall_cons in Hstr as [Hy _]. simpl.
    rewrite (strip_dashes_stripped x), (strip_dashes_stripped y) by done.
    eexists. split; [done|]. simpl. split.
    + exists [stripped x; stripped y]. split; [done|]. right. simpl.
      rewrite !strip_dashes_stripped by (by rewrite stripped_idemp).
      by rewrite !stripped_idemp, insert_insert_eq.
    + destruct (kind arg); simpl; rewrite ?app_nil_r; repeat split; done.
Qed.

Lemma opts_loop_plain (args : list (action Value)) s :
  Forall plain args →
  settled s →
  ∃ s',
    opts_loop args s = inr s'
    ∧ string_arguments s'
      = string_arguments s
        ++ ((λ a, stripped (option_of a))
              <$> filter (λ a, kind a = StoreAction) args)
    ∧ boolean_arguments s'
      = boolean_arguments s
        ++ ((λ a, stripped (option_of a))
              <$> filter (λ a, kind a = StoreTrueAction) args)
    ∧ positional_opts s'
      = positional_opts s
        ++ (dest <$> filter (λ a, option_strings a = []) args)
    ∧ alias s' = foldl alias_of (alias s) args
    ∧ choices_var s'
      = foldl (λ m a, match choices a with
                      | Some c => <[option_of a := c]> m
                      | None => m
                      end) (choices_var s) args
    ∧ defaults s'
      = foldl (λ m a, <[option_of a := default a]> m) (defaults s) args.
Proof.
  intros Hplain. revert s.
  induction Hplain as [|arg args Harg _ IH]; intros s Hs; simpl.
  - exists s. by rewrite !app_nil_r.
  - destruct (opts_step_plain s arg Harg (or_intror Hs))
      as (s1 & -> & Hs1 & H1 & H2 & H3 & H4 & H5 & H6).
    destruct (IH s1 Hs1) as (s' & -> & G1 & G2 & G3 & G4 & G5 & G6).
    exists s'. split; [done|].
    rewrite G1, G2, G3, G4, G5, G6, H1, H2, H3, H4, H5, H6.
    rewrite !filter_cons. repeat split.
    + destruct (decide (kind arg = StoreAction)); simpl;
        by rewrite <-?app_assoc, ?app_nil_r.
    + destruct (decide (kind arg = StoreTrueAction)); simpl;
        by rewrite <-?app_assoc, ?app_nil_r.
    + destruct (decide (option_strings arg = [])); simpl;
        by rewrite <-?app_assoc, ?app_nil_r.
Qed.

(** X23. On plain actions, the first of them with option strings,
    [generate_opts] raises nothing and returns: in [string] and
    [boolean] the names, dashes stripped, of the [_StoreAction] and the
    [_StoreTrueAction] actions, in their order; in [positional_opts] the
    [dest] of the actions without option strings; in [alias] the first
    option string of each action that has two, mapped to its second,
    both stripped; and [choices] and [defaults] keyed by the names with
    their dashes. *)
Theorem generate_opts_on_plain_actions (first : action Value)
    (rest : list (action Value)) :
  option_strings first ≠ [] →
  Forall plain (first :: rest) →
  ∃ s,
    generate_opts (first :: rest) = inr s
    ∧ string_arguments s
      = (λ a, stripped (option_of a))
          <$> filter (λ a, kind a = StoreAction) (first :: rest)
    ∧ boolean_arguments s
      = (λ a, stripped (option_of a))
          <$> filter (λ a, kind a = StoreTrueAction) (first :: rest)
    ∧ positional_opts s
      = dest <$> filter (λ a, option_strings a = []) (first :: rest)
    ∧ alias s = foldl alias_of ∅ (first :: rest)
    ∧ choices_var s
      = foldl (λ m a, match choices a with
                      | Some c => <[option_of a := c]> m
                      | None => m
                      end) ∅ (first :: rest)
    ∧ defaults s
      = foldl (λ m a, <[option_of a := default a]> m) ∅ (first :: rest).
Proof.
  intros Hfirst Hplain. apply Forall_cons in Hplain as [Hp Hrest].
  unfold generate_opts. simpl.
  destruct (opts_step_plain (mk_locals [] [] [] ∅ ∅ ∅ None) first Hp
              (or_introl Hfirst))
    as (s1 & -> & Hs1 & H1 & H2 & H3 & H4 & H5 & H6).
  destruct (opts_loop_plain rest s1 Hrest Hs1)
    as (s' & -> & G1 & G2 & G3 & G4 & G5 & G6).
  exists s'. split; [done|].
  rewrite G1, G2, G3, G4, G5, G6, H1, H2, H3, H4, H5, H6. simpl.
  rewrite !filter_cons. repeat split.
  - by destruct (decide (kind first = StoreAction)).
  - by destruct (decide (kind first = StoreTrueAction)).
  - by destruct (decide (option_strings first = [])).
Qed.

End opts_facts.

(** On [-v/--verbose], [--device] and the positional [workflow]. *)
Lemma generate_opts_on_plain_actions_witness :
  ∃ s,
    GenerateFrontend.generate_opts MoreExamples.actions = inr s
    ∧ GenerateFrontend.boolean_arguments s = ["verbose"]
    ∧ GenerateFrontend.string_arguments s = ["device"; "workflow"]
    ∧ GenerateFrontend.positional_opts s = ["workflow"]
    ∧ GenerateFrontend.alias s !! "v" = Some "verbose"
    ∧ GenerateFrontend.defaults s !! "--verbose" = Some 0%Z.
Proof.
  destruct (generate_opts_on_plain_actions
              (GenerateFrontend.mk_action ["-v"; "--verbose"] "verbose" None 0%Z
                 GenerateFrontend.StoreTrueAction)
              (tail MoreExamples.actions))
    as (s & Hs & H1 & H2 & H3 & H4 & _ & H6).
  - done.
  - repeat constructor; simpl; try lia; try done.
  - exists s. split; [exact Hs|]. rewrite H1, H2, H3, H4, H6.
    repeat split; vm_compute; reflexivity.
Defined.

(** The positional [workflow] in first place. *)
Lemma generate_opts_fails_on_leading_positional_witness :
  GenerateFrontend.generate_opts
    (GenerateFrontend.mk_action [] "workflow" None 2%Z
       GenerateFrontend.StoreAction :: MoreExamples.actions)
  = inl GenerateFrontend.RaisedNameError.
Proof.
  apply (generate_opts_fails_on_leading_positional
           (GenerateFrontend.mk_action [] "workflow" None 2%Z
              GenerateFrontend.StoreAction) MoreExamples.actions).
  reflexivity.
Defined.

(** An action with the three option strings [-d], [--dev], [--device]. *)
Lemma generate_opts_fails_on_odd_option_strings_witness :
  ∃ e,
    GenerateFrontend.generate_opts
      (MoreExamples.actions ++
       GenerateFrontend.mk_action ["-d"; "--dev"; "--device"] "device" None 1%Z
         GenerateFrontend.StoreAction :: [])
    = inl e.
Proof.
  apply (generate_opts_fails_on_odd_option_strings MoreExamples.actions []).
  - simpl. lia.
  - exists 1. reflexivity.
Defined.

(** The state of [Examples.pickled], pickled again. *)
Lemma getstate_idempotent_witness :
  Pickleable.__getstate__
    (mk_heap (fst (Pickleable.__getstate__ Examples.pickled)) [] ∅)
  = (fst (Pickleable.__getstate__ Examples.pickled), None).
Proof.
  apply (getstate_idempotent Examples.pickled). vm_compute; reflexivity.
Defined.

(** The unit named [a], pickled and restored: the name is kept, [run] is
    [None], the timer is zero. *)
Lemma pickle_round_trip_witness :
  __dict__ (Unit.__setstate__ None 7
              (fst (Pickleable.__getstate__ MoreExamples.named))
              (mk_heap ∅ [false; true] ∅)) !! "run" = Some PyNone
  ∧ timers (Unit.__setstate__ None 7
              (fst (Pickleable.__getstate__ MoreExamples.named))
              (mk_heap ∅ [false; true] ∅)) !! 7 = Some 0%Z.
Proof.
  destruct (pickle_round_trip 7 MoreExamples.named
              (fst (Pickleable.__getstate__ MoreExamples.named))
              [false; true] ∅) as [Hk Ht].
  - vm_compute; reflexivity.
  - split; [|exact Ht]. rewrite Hk by done. vm_compute; reflexivity.
Defined.

(** The unit named [a] is still named [a] after the round trip, where
    [init_unpickled] of the base class sets an attribute of its own. *)
Lemma name_survives_pickling_witness :
  UnitAttrs.name "Unit"
    (Unit.__setstate__ (Some (λ d, <["logger_" := PyStr "Unit"]> d)) 7
       (fst (Pickleable.__getstate__ MoreExamples.named))
       (mk_heap ∅ [false; true] ∅))
  = Some (PyStr "a").
Proof.
  rewrite (name_survives_pickling
             (Some (λ d, <["logger_" := PyStr "Unit"]> d))
             "Unit" 7 MoreExamples.named
             (fst (Pickleable.__getstate__ MoreExamples.named))
             [false; true] ∅ (PyStr "a")).
  - vm_compute; reflexivity.
  - intros f d [= <-]. apply lookup_insert_ne. discriminate.
  - vm_compute; reflexivity.
  - vm_compute; reflexivity.
  - reflexivity.
Defined.
